(** * Graupner HoTT telemetry daemon: request listener, frame transmitter
      and session loop of [src/drivers/hott/hott_telemetry/hott_telemetry.c]

    The C functions [recv_req_id], [recv_data], [send_data] and the polling
    loop of [hott_telemetry_thread_main] are embedded as computations over an
    explicit model of the serial line and of the daemon's console.  Bytes are
    integers ([Z]); [uint16_t] arithmetic is written with its wrap-around;
    [size_t] counters and array indices are natural numbers. *)

From stdpp Require Import base numbers list strings.

Open Scope Z_scope.

(** ** Result codes *)

(** The [int] results of the three static functions are only ever one of the
    two NuttX constants [OK] and [ERROR]. *)
Inductive status : Set := OK | ERROR.

#[global] Instance status_eq_dec : EqDecision status.
Proof. solve_decision. Defined.

(** ** How a call ends *)

(** A call either returns to its caller, or it never does: it hangs in a
    [read] that no byte ever satisfies, it touches an array outside its
    bounds (undefined behaviour in C; the model stops there and keeps the
    offending index), or the step budget given to an unbounded loop of the
    model ran out.  Each case carries the machine as it stands then. *)
Inductive outcome (S A : Type) : Type :=
| Returns (a : A) (s : S)
| Blocks (s : S)
| Overruns (i : nat) (s : S)
| Exhausts (s : S).

Arguments Returns {S A} a s.
Arguments Blocks {S A} s.
Arguments Overruns {S A} i s.
Arguments Exhausts {S A} s.

Definition final {S A : Type} (o : outcome S A) : S :=
  match o with
  | Returns _ s | Blocks s | Overruns _ s | Exhausts s => s
  end.

Definition returns {S A : Type} (o : outcome S A) : Prop :=
  match o with Returns _ _ => True | _ => False end.

Section Daemon.

(** ** What the file takes from elsewhere *)

(** [../messages.h] and [../comms.h] are not among the sources at hand: the
    protocol constants they define are parameters of the development, and so
    are the two message builders, which fill the caller's buffer from the
    sensor topics they subscribe to and report the frame's size. *)
Variable topics : Type.
Variables BINARY_MODE_REQUEST_ID EAM_SENSOR_ID GPS_SENSOR_ID STOP_BYTE : Z.
Variables POST_READ_DELAY_IN_USECS POST_WRITE_DELAY_IN_USECS : Z.
Variable MESSAGE_BUFFER_SIZE : nat.
Variables build_eam_response build_gps_response :
  topics → list Z → nat → list Z * nat.

(** ** The machine: serial line, console, clock *)

(** [rx] is the receive queue of the UART, oldest byte first; [tx] the bytes
    that went out on the wire.  On a half-duplex line ([echo]) every byte
    sent is seen again on the receive side.  [wr_faults] schedules the
    coming [write] calls: [true] makes the call fail, an exhausted schedule
    lets every call succeed.  [clock] adds up the microseconds spent asleep,
    [console] collects what [warnx] prints, [thread_should_exit] is the
    daemon's exit flag, and [sensors] is what the builders read. *)
Record machine : Type := Machine {
  rx : list Z;
  tx : list Z;
  echo : bool;
  wr_faults : list bool;
  clock : Z;
  console : list string;
  thread_should_exit : bool;
  sensors : topics
}.

Definition with_rx (q : list Z) (m : machine) : machine :=
  Machine q (tx m) (echo m) (wr_faults m) (clock m) (console m)
          (thread_should_exit m) (sensors m).

Definition with_clock (c : Z) (m : machine) : machine :=
  Machine (rx m) (tx m) (echo m) (wr_faults m) c (console m)
          (thread_should_exit m) (sensors m).

Definition with_console (l : list string) (m : machine) : machine :=
  Machine (rx m) (tx m) (echo m) (wr_faults m) (clock m) l
          (thread_should_exit m) (sensors m).

Definition with_exit (b : bool) (m : machine) : machine :=
  Machine (rx m) (tx m) (echo m) (wr_faults m) (clock m) (console m)
          b (sensors m).

(** One [write] of a byte that succeeds: the byte is on the wire, and back
    in the receive queue when the line echoes. *)
Definition put_on_wire (b : Z) (m : machine) : machine :=
  Machine (if echo m then rx m ++ [b] else rx m) (tx m ++ [b]) (echo m)
          (tail (wr_faults m)) (clock m) (console m)
          (thread_should_exit m) (sensors m).

(** One [write] that fails: nothing leaves, the schedule moves on. *)
Definition drop_write (m : machine) : machine :=
  Machine (rx m) (tx m) (echo m) (tail (wr_faults m)) (clock m) (console m)
          (thread_should_exit m) (sensors m).

(** ** Computations *)

Definition M (A : Type) : Type := machine → outcome machine A.

#[global] Instance M_ret : MRet M := λ A a m, Returns a m.

#[global] Instance M_bind : MBind M := λ A B k c m,
  match c m with
  | Returns a m' => k a m'
  | Blocks m' => Blocks m'
  | Overruns i m' => Overruns i m'
  | Exhausts m' => Exhausts m'
  end.

(** ** System calls *)

(** [poll(fds, 1, timeout_ms)] on the UART: the number of ready descriptors,
    1 when a byte is pending, 0 after the timeout has passed without one. *)
Definition poll (timeout_ms : Z) : M Z := λ m,
  match rx m with
  | [] => Returns 0 (with_clock (clock m + 1000 * timeout_ms) m)
  | _ :: _ => Returns 1 m
  end.

(** [read(uart, dst, count)].  The descriptor comes from [open_uart], which
    is not in this file; it is taken to be a blocking one.  With [count = 0]
    the call returns at once; otherwise it waits for the first byte and
    hands over what is pending, at most [count] bytes; on a line that stays
    silent it never returns.  No caller looks at the result value of
    [read]; the bytes handed over are what the model returns. *)
Definition read (count : nat) : M (list Z) := λ m,
  match count, rx m with
  | O, _ => Returns [] m
  | S _, [] => Blocks m
  | S _, _ :: _ => Returns (take count (rx m)) (with_rx (drop count (rx m)) m)
  end.

(** [read(uart, &x, sizeof(x))] for a single byte [x]. *)
Definition read_byte : M Z := λ m,
  match read 1 m with
  | Returns (b :: _) m' => Returns b m'
  | Returns [] m' => Blocks m'
  | Blocks m' => Blocks m'
  | Overruns i m' => Overruns i m'
  | Exhausts m' => Exhausts m'
  end.

(** [write(uart, &b, 1)]: the number of bytes written, or -1. *)
Definition write (b : Z) : M Z := λ m,
  match wr_faults m with
  | true :: _ => Returns (-1) (drop_write m)
  | _ => Returns 1 (put_on_wire b m)
  end.

Definition usleep (usecs : Z) : M unit := λ m,
  Returns () (with_clock (clock m + usecs) m).

Definition warnx (msg : string) : M unit := λ m,
  Returns () (with_console (console m ++ [msg]) m).

(** ** Array accesses *)

(** [buffer[i]] as an rvalue and [buffer[i] = v]; outside the array the
    behaviour is undefined. *)
Definition load (buffer : list Z) (i : nat) : M Z := λ m,
  match buffer !! i with
  | Some b => Returns b m
  | None => Overruns i m
  end.

Definition store (buffer : list Z) (i : nat) (v : Z) : M (list Z) := λ m,
  if decide (i < length buffer)%nat then Returns (<[i:=v]> buffer) m
  else Overruns i m.

(** ** [recv_req_id] *)

Definition timeout_ms : Z := 1000.

(** [id] is the value behind the caller's pointer on entry; the second
    component of the result is the value behind it on return. *)
Definition recv_req_id (id : Z) : M (status * Z) :=
  ready ← poll timeout_ms;
  if bool_decide (ready > 0) then
    mode ← read_byte;
    if bool_decide (mode ≠ BINARY_MODE_REQUEST_ID) then mret (ERROR, id)
    else
      id' ← read_byte;
      mret (OK, id')
  else
    warnx "UART timeout on TX/RX port";;
    mret (ERROR, id).

(** ** [recv_data] *)

(** The loop [while (true)] of [recv_data], with [fuel] bounding the number
    of passes the model follows.  [i] and [stop_byte_read] are the loop's
    variables; [size] and [id] are the values behind the caller's pointers. *)
Fixpoint recv_data_loop (fuel : nat) (buffer : list Z) (size : nat) (id : Z)
    (i : nat) (stop_byte_read : bool) : M (status * list Z * nat * Z) :=
  match fuel with
  | O => Exhausts
  | S fuel' =>
    b ← read_byte;
    buffer ← store buffer i b;
    if stop_byte_read then mret (OK, buffer, S i, id)
    else
      bi ← load buffer i;
      if bool_decide (bi = STOP_BYTE) then
        b1 ← load buffer 1;
        recv_data_loop fuel' buffer size b1 (S i) true
      else recv_data_loop fuel' buffer size id (S i) false
  end.

Definition recv_data (fuel : nat) (buffer : list Z) (size : nat) (id : Z)
    : M (status * list Z * nat * Z) :=
  usleep 5000;;
  ready ← poll 1000;
  if bool_decide (ready > 0) then recv_data_loop fuel buffer size id 0 false
  else mret (ERROR, buffer, size, id).

(** ** [send_data] *)

(** The [for] loop of [send_data]: [todo] passes are left, [i] is the loop
    index and [checksum] the [uint16_t] accumulator.  With [size = 0] the
    loop body is never entered, so [size - 1] is only ever evaluated for
    [size >= 1], where it does not wrap. *)
Fixpoint send_loop (todo i size : nat) (checksum : Z) (buffer : list Z)
    : M (list Z) :=
  match todo with
  | O => mret buffer
  | S todo' =>
    '(checksum, buffer) ←
      (if bool_decide (i = size - 1)%nat then
         buffer' ← store buffer i (Z.land checksum 0xff);
         mret (checksum, buffer')
       else
         b ← load buffer i;
         mret ((checksum + b) `mod` 65536, buffer));
    b ← load buffer i;
    write b;;
    usleep POST_WRITE_DELAY_IN_USECS;;
    send_loop todo' (S i) size checksum buffer
  end.

Definition send_data (buffer : list Z) (size : nat) : M (status * list Z) :=
  usleep POST_READ_DELAY_IN_USECS;;
  buffer ← send_loop size 0 size 0 buffer;
  read size;;
  mret (OK, buffer).

(** ** The polling loop of [hott_telemetry_thread_main] *)

(** The locals of the thread that live across passes of the loop. *)
Record locals : Type := Locals {
  buffer : list Z;
  size : nat;
  id : Z;
  connected : bool
}.

Definition startup (buf : list Z) : locals := Locals buf 0 0 true.

(** A call of one of the builders on the thread's buffer. *)
Definition build (f : topics → list Z → nat → list Z * nat)
    (buf : list Z) (sz : nat) : M (list Z * nat) := λ m,
  Returns (f (sensors m) buf sz) m.

(** The [switch (id)] and the [send_data] call after it; the [default]
    branch leaves the pass ([continue]). *)
Definition serve_poll (t : locals) : M locals :=
  if bool_decide (id t = EAM_SENSOR_ID) then
    '(buf, sz) ← build build_eam_response (buffer t) (size t);
    '(_, buf) ← send_data buf sz;
    mret (Locals buf sz (id t) (connected t))
  else if bool_decide (id t = GPS_SENSOR_ID) then
    '(buf, sz) ← build build_gps_response (buffer t) (size t);
    '(_, buf) ← send_data buf sz;
    mret (Locals buf sz (id t) (connected t))
  else mret t.

(** One pass of [while (!thread_should_exit)]. *)
Definition loop_body (t : locals) : M locals :=
  '(r, id') ← recv_req_id (id t);
  if bool_decide (r = OK) then
    (if connected t then mret () else warnx "OK");;
    serve_poll (Locals (buffer t) (size t) id' true)
  else
    warnx "syncing";;
    mret (Locals (buffer t) (size t) id' false).

(** The states in which the thread stands at the head of its loop, with the
    result of the latest [recv_req_id] call ([None] before the first).
    Between two passes the receiver may put bytes on the line, the sensor
    topics may change and the [stop] command may raise the exit flag; a
    pass is taken only while the flag is down. *)
Inductive session : option status → locals → machine → Prop :=
| session_start buf m :
    length buf = MESSAGE_BUFFER_SIZE →
    session None (startup buf) m
| session_line last t m q :
    session last t m →
    session last t (with_rx (rx m ++ q) m)
| session_sense last t m s :
    session last t m →
    session last t (Machine (rx m) (tx m) (echo m) (wr_faults m) (clock m)
                            (console m) (thread_should_exit m) s)
| session_stop last t m :
    session last t m →
    session last t (with_exit true m)
| session_pass last t m r id' m1 t' m' :
    session last t m →
    thread_should_exit m = false →
    recv_req_id (id t) m = Returns (r, id') m1 →
    loop_body t m = Returns t' m' →
    session (Some r) t' m'.

(** The loop [while (!thread_should_exit)] itself, with [fuel] bounding the
    number of passes the model follows, run with nobody else touching the
    machine in between. *)
Fixpoint thread_loop (fuel : nat) (t : locals) : M locals :=
  match fuel with
  | O => Exhausts
  | S fuel' => λ m,
    if thread_should_exit m then Returns t m
    else (loop_body t ≫= thread_loop fuel') m
  end.

(** ** Starting and stopping the daemon *)

(** [open_uart] comes from [../comms.h]: the descriptor of the opened
    device, negative when it cannot be opened. *)
Variable open_uart : string → Z.

Definition commandline_usage : string :=
  "usage: hott_telemetry start|status|stop [-d <device>]".

Definition newline : string := String (Ascii.ascii_of_nat 10) "".

(** What the commands and the thread share: the machine with its console
    and exit flag, the flag [thread_running], and the argument vectors
    handed to [task_spawn_cmd] so far, oldest first. *)
Record daemon : Type := Daemon {
  mach : machine;
  thread_running : bool;
  spawned : list (list string)
}.

(** How a command or the start of the thread ends: [exit] (also through
    [errx]), a [return], or a step that C leaves undefined. *)
Inductive ending : Type :=
| Exit (code : Z)
| Return (value : Z)
| Undefined.

Definition say (msg : string) (d : daemon) : daemon :=
  Daemon (with_console (console (mach d) ++ [msg]) (mach d))
         (thread_running d) (spawned d).

Definition set_running (b : bool) (d : daemon) : daemon :=
  Daemon (mach d) b (spawned d).

Definition set_should_exit (b : bool) (d : daemon) : daemon :=
  Daemon (with_exit b (mach d)) (thread_running d) (spawned d).

Definition is_device_flag (a : string) : bool :=
  bool_decide (a = "-d") || bool_decide (a = "--device").

(** The argument loop of [hott_telemetry_thread_main], from index [i] on:
    [args] is [argv[i]], ..., [argv[argc - 1]] (the entries below [argc] are
    strings, none of them null), so [argc > i + 1] says that [args] has a
    second element.  [None] is the branch that ends in [errx]. *)
Fixpoint scan_args (args : list string) (device : string) : option string :=
  match args with
  | [] => Some device
  | a :: rest =>
    if is_device_flag a then
      match rest with
      | next :: _ => scan_args rest next
      | [] => None
      end
    else scan_args rest device
  end.

(** [hott_telemetry_thread_main] up to its loop: the descriptor to poll on
    when it gets there, or the way it ends before.  [errx] prints and ends
    the task; it does not return.  The call of [sub_messages_init] that
    comes last belongs to [../messages.h] and has to do with the sensor
    topics only. *)
Definition thread_start (argv : list string) (d : daemon)
    : daemon * (Z + ending) :=
  let d := say "starting" d in
  let d := set_running true d in
  match scan_args argv "/dev/ttyS1" with
  | None =>
    let d := set_running false d in
    (say ("missing parameter to -d" ++ newline ++ commandline_usage) d,
     inr (Exit 1))
  | Some device =>
    let uart := open_uart device in
    if bool_decide (uart < 0) then
      (say "Failed opening HoTT UART, exiting." d, inr (Exit 1))
    else (d, inl uart)
  end.

(** [hott_telemetry_thread_main] once its loop is left. *)
Definition thread_finish (d : daemon) : daemon * ending :=
  let d := say "exiting" d in
  (set_running false d, Return 0).

(** [hott_telemetry_main].  [argv] holds the [argc] argument strings;
    [argv[argc]] is a null pointer, and handing it to [strcmp] is
    undefined. *)
Definition hott_telemetry_main (argv : list string) (d : daemon)
    : daemon * ending :=
  if bool_decide (length argv < 1)%nat then
    (say ("missing command" ++ newline ++ commandline_usage) d, Exit 1)
  else
    match argv !! 1%nat with
    | None => (d, Undefined)
    | Some command =>
      if bool_decide (command = "start") then
        if thread_running d then (say "deamon already running" d, Exit 0)
        else
          let d := set_should_exit false d in
          (Daemon (mach d) (thread_running d) (spawned d ++ [drop 2 argv]),
           Exit 0)
      else if bool_decide (command = "stop") then
        (set_should_exit true d, Exit 0)
      else if bool_decide (command = "status") then
        (say (if thread_running d then "daemon is running"
              else "daemon not started") d, Exit 0)
      else
        (say ("unrecognized command" ++ newline ++ commandline_usage) d,
         Exit 1)
    end.

(** ** Vocabulary of the statements *)

(** The sum of the bytes of [l], and the checksum byte of a payload. *)
Definition byte_sum (l : list Z) : Z := foldr Z.add 0 l.

Definition checksum_of (payload : list Z) : Z := byte_sum payload `mod` 256.

(** The frame that leaves for the first [size] bytes of [buf]: the bytes
    before the last position, then their checksum. *)
Definition frame (buf : list Z) (size : nat) : list Z :=
  match size with
  | O => []
  | S k => take k buf ++ [checksum_of (take k buf)]
  end.

(** The [uint16_t] accumulator after the bytes of [l] were added to [c]. *)
Definition accumulate (c : Z) (l : list Z) : Z :=
  foldl (λ c b, (c + b) `mod` 65536) c l.

(** The machine after [write(uart, &b, 1)] and the pause that follows it,
    and after a run of such writes. *)
Definition write_step (b : Z) (m : machine) : machine :=
  let m' := match wr_faults m with
            | true :: _ => drop_write m
            | _ => put_on_wire b m
            end in
  with_clock (clock m' + POST_WRITE_DELAY_IN_USECS) m'.

Definition transmit (l : list Z) (m : machine) : machine :=
  foldl (λ m b, write_step b m) m l.

(** The bytes of [l] whose [write] the fault schedule lets through. *)
Fixpoint delivered (faults : list bool) (l : list Z) : list Z :=
  match l with
  | [] => []
  | b :: l' =>
    match faults with
    | true :: fs => delivered fs l'
    | _ => b :: delivered (tail faults) l'
    end
  end.

(** The caller's buffer once [send_data] is through with it. *)
Definition framed (buf : list Z) (size : nat) : list Z :=
  match size with
  | O => buf
  | S k => <[k := checksum_of (take k buf)]> buf
  end.

(** No [write] fails among the next [n] calls. *)
Definition fault_free (n : nat) (m : machine) : Prop :=
  Forall (eq false) (take n (wr_faults m)).

(** What the thread prints once [recv_req_id] has returned [r]. *)
Definition notice (was_connected : bool) (r : status) : list string :=
  match r with
  | OK => if was_connected then [] else ["OK"]
  | ERROR => ["syncing"]
  end.

(** What a call may do to the machine besides the receive queue, the fault
    schedule and the clock: put more bytes on the wire and print more
    lines.  The wiring, the exit flag and the sensor topics are not its to
    change. *)
Definition extends (m m' : machine) : Prop :=
  echo m' = echo m ∧ thread_should_exit m' = thread_should_exit m ∧
  sensors m' = sensors m ∧
  tx m `prefix_of` tx m' ∧ console m `prefix_of` console m'.

(** Values that fit a [uint8_t]. *)
Definition is_byte (b : Z) : Prop := 0 ≤ b < 256.

(** The array [buf] with the bytes of [l] stored from index [i] on. *)
Definition place (i : nat) (l buf : list Z) : list Z :=
  take i buf ++ l ++ drop (i + length l) buf.

(** * Properties *)

(** ** Running a computation *)

Lemma bind_eq {A B : Type} (c : M A) (k : A → M B) (m : machine) :
  (c ≫= k) m =
  match c m with
  | Returns a m' => k a m'
  | Blocks m' => Blocks m'
  | Overruns i m' => Overruns i m'
  | Exhausts m' => Exhausts m'
  end.
Proof. reflexivity. Qed.

Lemma bind_returns {A B : Type} (c : M A) (k : A → M B) (m m' : machine) (a : A) :
  c m = Returns a m' → (c ≫= k) m = k a m'.
Proof. intros E. rewrite bind_eq, E. reflexivity. Qed.

Lemma read_byte_cons (m : machine) (b : Z) (q : list Z) :
  rx m = b :: q → read_byte m = Returns b (with_rx q m).
Proof.
  intros E. unfold read_byte, read. rewrite E. simpl. by rewrite drop_0.
Qed.

Lemma read_byte_nil (m : machine) : rx m = [] → read_byte m = Blocks m.
Proof. intros E. unfold read_byte, read. by rewrite E. Qed.

(** ** The three ways [recv_req_id] ends on a pending byte or none *)

Lemma recv_req_id_timeout (id0 : Z) (m : machine) :
  rx m = [] →
  recv_req_id id0 m =
  Returns (ERROR, id0)
    (with_console (console m ++ ["UART timeout on TX/RX port"])
       (with_clock (clock m + 1000 * timeout_ms) m)).
Proof.
  intros E. unfold recv_req_id. rewrite bind_eq. unfold poll. rewrite E.
  reflexivity.
Qed.

Lemma recv_req_id_mismatch (id0 : Z) (m : machine) (mode : Z) (q : list Z) :
  rx m = mode :: q → mode ≠ BINARY_MODE_REQUEST_ID →
  recv_req_id id0 m = Returns (ERROR, id0) (with_rx q m).
Proof.
  intros E Hne. unfold recv_req_id. rewrite bind_eq. unfold poll. rewrite E.
  simpl. rewrite (bind_returns _ _ _ _ _ (read_byte_cons m mode q E)).
  by rewrite bool_decide_true.
Qed.

Lemma recv_req_id_request (id0 : Z) (m : machine) (sensor : Z) (q : list Z) :
  rx m = BINARY_MODE_REQUEST_ID :: sensor :: q →
  recv_req_id id0 m = Returns (OK, sensor) (with_rx q m).
Proof.
  intros E. unfold recv_req_id. rewrite bind_eq. unfold poll. rewrite E.
  simpl. rewrite (bind_returns _ _ _ _ _ (read_byte_cons m _ _ E)).
  rewrite bool_decide_false by (intros H; by apply H).
  rewrite bind_eq, (read_byte_cons (with_rx (sensor :: q) m) sensor q eq_refl).
  reflexivity.
Qed.

Lemma recv_req_id_half_request (id0 : Z) (m : machine) :
  rx m = [BINARY_MODE_REQUEST_ID] →
  recv_req_id id0 m = Blocks (with_rx [] m).
Proof.
  intros E. unfold recv_req_id. rewrite bind_eq. unfold poll. rewrite E.
  simpl. rewrite (bind_returns _ _ _ _ _ (read_byte_cons m _ _ E)).
  rewrite bool_decide_false by (intros H; by apply H).
  rewrite bind_eq. by rewrite read_byte_nil.
Qed.

(** ** The checksum arithmetic of [send_data] *)

Lemma accumulate_mod (c : Z) (l : list Z) :
  accumulate c l `mod` 65536 = (c + byte_sum l) `mod` 65536.
Proof.
  revert c. induction l as [|b l IH]; intros c; simpl.
  - by rewrite Z.add_0_r.
  - unfold accumulate in *. simpl. rewrite IH.
    rewrite Zplus_mod_idemp_l. f_equal. lia.
Qed.

Lemma low_byte_accumulate (l : list Z) :
  Z.land (accumulate 0 l) 0xff = checksum_of l.
Proof.
  change 0xff with (Z.ones 8). rewrite Z.land_ones by lia.
  change (2 ^ 8) with 256.
  rewrite <- (Z.mod_mod_divide (accumulate 0 l) 65536 256)
    by (exists 256; reflexivity).
  rewrite accumulate_mod, Z.add_0_l.
  by rewrite Z.mod_mod_divide by (exists 256; reflexivity).
Qed.

Lemma checksum_of_range (l : list Z) : 0 ≤ checksum_of l < 256.
Proof. unfold checksum_of. apply Z.mod_pos_bound. lia. Qed.

(** ** The [for] loop of [send_data] *)

Lemma write_then_pause {A : Type} (b : Z) (k : M A) (m : machine) :
  (write b;; usleep POST_WRITE_DELAY_IN_USECS;; k) m = k (write_step b m).
Proof.
  rewrite !bind_eq. unfold write, write_step.
  destruct (wr_faults m) as [|[] fs]; reflexivity.
Qed.

Lemma send_loop_run (size todo i : nat) (c : Z) (buf : list Z) (m : machine) :
  (i + todo = size)%nat → (size ≤ length buf)%nat →
  send_loop todo i size c buf m =
  match todo with
  | O => Returns buf m
  | S k =>
    let chk := Z.land (accumulate c (take k (drop i buf))) 0xff in
    Returns (<[(size - 1)%nat := chk]> buf)
            (transmit (take k (drop i buf) ++ [chk]) m)
  end.
Proof.
  revert i c m. induction todo as [|todo IH]; intros i c m Hi Hsz; [done|].
  cbn [send_loop]. rewrite bind_eq.
  destruct (lookup_lt_is_Some_2 buf i ltac:(lia)) as [b Hb].
  case_bool_decide as Hlast.
  - assert (todo = 0%nat) as -> by lia.
    rewrite bind_eq. unfold store. rewrite decide_True by lia.
    cbn. rewrite bind_eq. unfold load.
    rewrite list_lookup_insert_eq by lia.
    rewrite write_then_pause. cbn. by rewrite Hlast.
  - destruct todo as [|k]; [lia|].
    rewrite bind_eq. unfold load at 1. rewrite Hb. cbn -[send_loop].
    rewrite bind_eq. unfold load at 1. rewrite Hb.
    rewrite write_then_pause.
    rewrite IH by lia. cbn zeta.
    rewrite (drop_S buf b i Hb). cbn [take app].
    reflexivity.
Qed.

(** ** What a run of writes leaves behind *)

Lemma transmit_cons (b : Z) (l : list Z) (m : machine) :
  transmit (b :: l) m = transmit l (write_step b m).
Proof. reflexivity. Qed.

Lemma tx_transmit (l : list Z) (m : machine) :
  tx (transmit l m) = tx m ++ delivered (wr_faults m) l.
Proof.
  revert m. induction l as [|b l IH]; intros m.
  - by rewrite app_nil_r.
  - rewrite transmit_cons, IH. unfold write_step. simpl.
    destruct (wr_faults m) as [|[] fs] eqn:E; simpl; rewrite ?E; simpl;
      by rewrite <- ?app_assoc.
Qed.

Lemma rx_transmit (l : list Z) (m : machine) :
  rx (transmit l m) =
  rx m ++ (if echo m then delivered (wr_faults m) l else []).
Proof.
  revert m. induction l as [|b l IH]; intros m.
  - simpl. destruct (echo m); by rewrite app_nil_r.
  - rewrite transmit_cons, IH. unfold write_step. simpl.
    destruct (wr_faults m) as [|[] fs] eqn:E; simpl; rewrite ?E; simpl;
      destruct (echo m); by rewrite <- ?app_assoc.
Qed.

Lemma wr_faults_transmit (l : list Z) (m : machine) :
  wr_faults (transmit l m) = drop (length l) (wr_faults m).
Proof.
  revert m. induction l as [|b l IH]; intros m; [done|].
  rewrite transmit_cons, IH. unfold write_step. simpl.
  destruct (wr_faults m) as [|[] fs] eqn:E; simpl; rewrite ?E; simpl;
    by rewrite ?drop_nil.
Qed.

Lemma clock_transmit (l : list Z) (m : machine) :
  clock (transmit l m) =
  clock m + Z.of_nat (length l) * POST_WRITE_DELAY_IN_USECS.
Proof.
  revert m. induction l as [|b l IH]; intros m.
  - simpl. lia.
  - rewrite transmit_cons, IH. unfold write_step. simpl length.
    destruct (wr_faults m) as [|[] fs]; simpl clock; lia.
Qed.

Lemma delivered_fault_free (faults : list bool) (l : list Z) :
  Forall (eq false) (take (length l) faults) → delivered faults l = l.
Proof.
  revert faults. induction l as [|b l IH]; intros faults H; [done|].
  destruct faults as [|f fs]; simpl in *.
  - f_equal. apply IH. by rewrite take_nil.
  - apply Forall_cons in H as [<- H]. f_equal. by apply IH.
Qed.

Lemma delivered_last (faults : list bool) (l : list Z) (b : Z) :
  faults !! length l ≠ Some true →
  last (delivered faults (l ++ [b])) = Some b.
Proof.
  revert faults. induction l as [|a l IH]; intros faults H; simpl in *.
  - by destruct faults as [|[] fs].
  - destruct faults as [|[] fs]; simpl in *.
    + specialize (IH [] ltac:(done)). simpl in IH.
      destruct (delivered [] (l ++ [b])); [done|]. done.
    + by apply IH.
    + specialize (IH fs H).
      destruct (delivered fs (l ++ [b])); [done|]. done.
Qed.

(** ** [send_data] as a whole *)

Lemma frame_length (buf : list Z) (size : nat) :
  (size ≤ length buf)%nat → length (frame buf size) = size.
Proof.
  intros H. destruct size as [|k]; [done|]. unfold frame.
  rewrite length_app, length_take. simpl. lia.
Qed.

Lemma send_data_run (buf : list Z) (size : nat) (m : machine) :
  (size ≤ length buf)%nat →
  send_data buf size m =
  (read size;; mret (OK, framed buf size))
    (transmit (frame buf size)
       (with_clock (clock m + POST_READ_DELAY_IN_USECS) m)).
Proof.
  intros Hsz. unfold send_data. rewrite bind_eq. unfold usleep.
  rewrite bind_eq, send_loop_run by (done || lia).
  destruct size as [|k]; [done|]. cbn zeta.
  rewrite drop_0, low_byte_accumulate.
  by replace (S k - 1)%nat with k by lia.
Qed.

Lemma send_data_result (buf buf' : list Z) (size : nat) (m m' : machine)
    (r : status) :
  send_data buf size m = Returns (r, buf') m' → r = OK.
Proof.
  unfold send_data. rewrite bind_eq. unfold usleep. rewrite bind_eq.
  destruct (send_loop size 0 size 0 buf _) as [b1 m1| | |]; try done.
  rewrite bind_eq. destruct (read size m1); try done.
  intros [= <- _ _]. reflexivity.
Qed.

Lemma send_data_cases (buf : list Z) (size : nat) (m : machine) :
  (size ≤ length buf)%nat →
  let m2 := transmit (frame buf size)
              (with_clock (clock m + POST_READ_DELAY_IN_USECS) m) in
  match size, rx m2 with
  | O, _ => send_data buf size m = Returns (OK, buf) m2
  | S _, [] => send_data buf size m = Blocks m2
  | S _, _ :: _ =>
    send_data buf size m =
    Returns (OK, framed buf size) (with_rx (drop size (rx m2)) m2)
  end.
Proof.
  intros Hsz m2. rewrite (send_data_run buf size m Hsz). fold m2.
  rewrite bind_eq. unfold read.
  destruct size as [|k]; [done|]. by destruct (rx m2).
Qed.

Lemma send_data_tx (buf : list Z) (size : nat) (m : machine) :
  (size ≤ length buf)%nat →
  tx (final (send_data buf size m)) =
  tx m ++ delivered (wr_faults m) (frame buf size).
Proof.
  intros Hsz. pose proof (send_data_cases buf size m Hsz) as H.
  cbn zeta in H.
  destruct size as [|k]; [rewrite H; simpl; by rewrite app_nil_r|].
  destruct (rx (transmit _ _)); rewrite H; cbn [final tx with_rx];
    by rewrite tx_transmit.
Qed.

(** X5.  The pacing of [send_data]: however the call ends and whatever the
    writes do, it has spent the settle delay and then one pause for each
    byte of the frame. *)
Lemma send_data_pacing (buf : list Z) (size : nat) (m : machine) :
  (size ≤ length buf)%nat →
  clock (final (send_data buf size m)) =
  clock m + POST_READ_DELAY_IN_USECS +
  Z.of_nat size * POST_WRITE_DELAY_IN_USECS.
Proof.
  intros Hsz. pose proof (send_data_cases buf size m Hsz) as H.
  pose proof (frame_length buf size Hsz) as Hlen.
  cbn zeta in H.
  destruct size as [|k]; [rewrite H; simpl; lia|].
  destruct (rx (transmit _ _)); rewrite H; cbn [final clock with_rx];
    rewrite clock_transmit, Hlen; simpl; lia.
Qed.

Lemma send_data_returns (buf : list Z) (size : nat) (m : machine) :
  (size ≤ length buf)%nat →
  rx m ≠ [] ∨ size = 0%nat ∨
    (echo m = true ∧ wr_faults m !! 0%nat ≠ Some true) →
  ∃ m', send_data buf size m = Returns (OK, framed buf size) m' ∧
        tx m' = tx m ++ delivered (wr_faults m) (frame buf size).
Proof.
  intros Hsz Hline. pose proof (send_data_cases buf size m Hsz) as H.
  pose proof (send_data_tx buf size m Hsz) as Htx.
  cbn zeta in H. destruct size as [|k].
  - eexists. split; [exact H|]. by rewrite H in Htx.
  - destruct (rx (transmit _ _)) as [|b q] eqn:Erx.
    + exfalso. rewrite rx_transmit in Erx. simpl in Erx.
      apply app_eq_nil in Erx as [E1 E2].
      destruct Hline as [?|[?|[He Hf]]]; [done..|].
      rewrite He in E2. unfold frame in E2.
      destruct (take k buf) as [|a l]; simpl in E2;
        by destruct (wr_faults m) as [|[] fs].
    + eexists. split; [exact H|]. by rewrite H in Htx.
Qed.

(** ** The frame on the wire *)

(** C1.  For a frame of [size >= 1] the bytes [send_data] hands to the line
    are the bytes before the last position followed by their sum modulo
    256; what reaches the wire is that frame less the bytes whose [write]
    failed.  When the write of the last position goes through, the last byte
    on the wire is the checksum, and whatever the builder had left at the
    last position of the buffer plays no part. *)
Theorem send_data_checksum_last (buf : list Z) (size : nat) (m : machine) :
  (1 ≤ size ≤ length buf)%nat →
  let payload := take (size - 1) buf in
  let sent := tx (final (send_data buf size m)) in
  sent = tx m ++
         delivered (wr_faults m) (payload ++ [byte_sum payload `mod` 256]) ∧
  (wr_faults m !! (size - 1)%nat ≠ Some true →
   last sent = Some (byte_sum payload `mod` 256)) ∧
  (∀ v : Z, tx (final (send_data (<[(size - 1)%nat := v]> buf) size m)) = sent).
Proof.
  intros [H1 Hsz] payload sent.
  assert (Hframe : ∀ b : list Z, length b = length buf →
            take (size - 1) b = payload →
            tx (final (send_data b size m)) =
            tx m ++ delivered (wr_faults m)
                      (payload ++ [byte_sum payload `mod` 256])).
  { intros b Hlen Hb. rewrite send_data_tx by lia.
    destruct size as [|k]; [lia|]. unfold frame, checksum_of.
    replace (S k - 1)%nat with k in Hb by lia. by rewrite Hb. }
  assert (Hsent : sent = tx m ++ delivered (wr_faults m)
                           (payload ++ [byte_sum payload `mod` 256]))
    by (by apply Hframe).
  split; [exact Hsent|]. split.
  - intros Hok. rewrite Hsent, last_app.
    rewrite delivered_last; [done|].
    unfold payload. rewrite length_take. by replace (_ `min` _)%nat
      with (size - 1)%nat by lia.
  - intros v. rewrite Hsent. apply Hframe.
    + by rewrite length_insert.
    + unfold payload. by rewrite take_insert_ge by lia.
Qed.

(** C10.  Of the caller's buffer a returning [send_data] changes the byte
    at index [size - 1] and nothing else: that byte holds the checksum, every
    other index reads as before and the length is the same.  The call does
    return when a byte is pending on the line already, or when the line
    echoes and the first write goes through. *)
Theorem send_data_frame_effect (buf : list Z) (size : nat) (m : machine) :
  (1 ≤ size ≤ length buf)%nat →
  (∀ (r : status) (buf' : list Z) (m' : machine),
     send_data buf size m = Returns (r, buf') m' →
     buf' = <[(size - 1)%nat := byte_sum (take (size - 1) buf) `mod` 256]> buf ∧
     length buf' = length buf ∧
     ∀ i : nat, i ≠ (size - 1)%nat → buf' !! i = buf !! i) ∧
  (rx m ≠ [] ∨ echo m = true ∧ wr_faults m !! 0%nat ≠ Some true →
   returns (send_data buf size m)).
Proof.
  intros [H1 Hsz]. split.
  - intros r buf' m' E.
    pose proof (send_data_cases buf size m Hsz) as H. cbn zeta in H.
    destruct size as [|k]; [lia|]. replace (S k - 1)%nat with k by lia.
    destruct (rx (transmit _ _)); rewrite H in E; [done|].
    injection E as _ <- _. unfold framed, checksum_of.
    split; [done|]. split; [by rewrite length_insert|].
    intros i Hi. by rewrite list_lookup_insert_ne.
  - intros Hline.
    destruct (send_data_returns buf size m Hsz) as (m' & -> & _); [|done].
    destruct Hline as [?|?]; auto.
Qed.

(** ** Echo suppression *)

(** C7.  When the [size] writes of a frame all go through and the line is
    half-duplex (or [size] bytes were pending anyway), [send_data] returns
    after draining exactly [size] bytes: the receive queue as it stands once
    the frame is written -- what was pending, then the echo -- loses its
    first [size] bytes, whatever they are, and keeps the rest. *)
Theorem send_data_drains_size_bytes (buf : list Z) (size : nat) (m : machine) :
  (size ≤ length buf)%nat →
  fault_free size m →
  echo m = true ∨ (size ≤ length (rx m))%nat →
  ∃ m' : machine,
    send_data buf size m = Returns (OK, framed buf size) m' ∧
    tx m' = tx m ++ frame buf size ∧
    ∃ drained : list Z,
      length drained = size ∧
      rx m ++ (if echo m then frame buf size else []) = drained ++ rx m'.
Proof.
  intros Hsz Hff Hline.
  pose proof (send_data_cases buf size m Hsz) as H. cbn zeta in H.
  pose proof (frame_length buf size Hsz) as Hlen.
  assert (Hdel : delivered (wr_faults m) (frame buf size) = frame buf size).
  { apply delivered_fault_free. by rewrite Hlen. }
  set (m2 := transmit _ _) in H.
  assert (Hrx : rx m2 = rx m ++ (if echo m then frame buf size else [])).
  { unfold m2. rewrite rx_transmit. simpl. by rewrite Hdel. }
  assert (Htx : tx m2 = tx m ++ frame buf size).
  { unfold m2. rewrite tx_transmit. simpl. by rewrite Hdel. }
  assert (Hq : (size ≤ length (rx m2))%nat).
  { rewrite Hrx, length_app.
    destruct Hline as [->|?]; [rewrite Hlen|]; lia. }
  destruct size as [|k].
  - exists m2. split; [done|]. split; [done|]. exists []. by rewrite <- Hrx.
  - destruct (rx m2) as [|b q] eqn:Erx; [simpl in Hq; lia|].
    eexists. split; [exact H|]. split; [done|].
    exists (take (S k) (b :: q)). split.
    + rewrite length_take. lia.
    + rewrite <- Hrx. cbn [rx with_rx]. by rewrite take_drop.
Qed.

(** ** Write failures *)

(** C4, as the code has it.  [send_data] never looks at what [write]
    returned: whenever it returns, it returns [OK], and it does return when a
    byte is pending on the line.  A failed write shows only as a byte
    missing on the wire. *)
Theorem send_data_always_ok (buf : list Z) (size : nat) (m : machine) :
  (∀ (r : status) (buf' : list Z) (m' : machine),
     send_data buf size m = Returns (r, buf') m' → r = OK) ∧
  ((size ≤ length buf)%nat → rx m ≠ [] →
   ∃ m' : machine,
     send_data buf size m = Returns (OK, framed buf size) m' ∧
     tx m' = tx m ++ delivered (wr_faults m) (frame buf size)).
Proof.
  split.
  - intros r buf' m'. apply send_data_result.
  - intros Hsz Hrx. apply send_data_returns; auto.
Qed.

(** ** [recv_req_id], read backwards *)

Lemma recv_req_id_ok_inv (id0 id' : Z) (m m1 : machine) :
  recv_req_id id0 m = Returns (OK, id') m1 →
  ∃ q : list Z, rx m = BINARY_MODE_REQUEST_ID :: id' :: q ∧ m1 = with_rx q m.
Proof.
  destruct (rx m) as [|mode [|sensor q]] eqn:E.
  - by rewrite recv_req_id_timeout.
  - destruct (decide (mode = BINARY_MODE_REQUEST_ID)) as [->|Hne].
    + by rewrite recv_req_id_half_request.
    + by rewrite (recv_req_id_mismatch id0 m mode [] E Hne).
  - destruct (decide (mode = BINARY_MODE_REQUEST_ID)) as [->|Hne].
    + rewrite (recv_req_id_request id0 m sensor q E).
      intros [= <- <-]. by exists q.
    + by rewrite (recv_req_id_mismatch id0 m mode _ E Hne).
Qed.

Lemma recv_req_id_error_inv (id0 id' : Z) (m m1 : machine) :
  recv_req_id id0 m = Returns (ERROR, id') m1 →
  id' = id0 ∧
  (rx m = [] ∧ console m1 = console m ++ ["UART timeout on TX/RX port"] ∨
   ∃ (mode : Z) (q : list Z),
     rx m = mode :: q ∧ mode ≠ BINARY_MODE_REQUEST_ID ∧ m1 = with_rx q m).
Proof.
  destruct (rx m) as [|mode q] eqn:E.
  - rewrite recv_req_id_timeout by done. intros [= <- <-]. by auto.
  - destruct (decide (mode = BINARY_MODE_REQUEST_ID)) as [->|Hne].
    + destruct q as [|sensor q].
      * by rewrite recv_req_id_half_request.
      * by rewrite (recv_req_id_request id0 m sensor q E).
    + rewrite (recv_req_id_mismatch id0 m mode q E Hne).
      intros [= <- <-]. split; [done|]. right. by exists mode, q.
Qed.

(** ** What [send_data] leaves alone *)

Lemma console_write_step (b : Z) (m : machine) :
  console (write_step b m) = console m.
Proof. unfold write_step. by destruct (wr_faults m) as [|[] fs]. Qed.

Lemma send_loop_console (todo i size : nat) (c : Z) (buf : list Z)
    (m : machine) :
  console (final (send_loop todo i size c buf m)) = console m.
Proof.
  revert i c buf m. induction todo as [|todo IH]; intros i c buf m; [done|].
  cbn [send_loop]. rewrite bind_eq. case_bool_decide.
  - rewrite bind_eq. unfold store. case_decide; [|done].
    cbn -[send_loop]. rewrite bind_eq. unfold load.
    destruct (_ !! _); [|done].
    by rewrite write_then_pause, IH, console_write_step.
  - rewrite bind_eq. unfold load at 1. destruct (buf !! i) as [b|] eqn:E; [|done].
    cbn -[send_loop]. rewrite bind_eq. unfold load at 1. rewrite E.
    by rewrite write_then_pause, IH, console_write_step.
Qed.

Lemma send_data_console (buf : list Z) (size : nat) (m : machine) :
  console (final (send_data buf size m)) = console m.
Proof.
  unfold send_data. rewrite bind_eq. unfold usleep. rewrite bind_eq.
  pose proof (send_loop_console size 0 size 0 buf
                (with_clock (clock m + POST_READ_DELAY_IN_USECS) m)) as H.
  destruct (send_loop size 0 size 0 buf _) as [b1 m1|m1|k m1|m1];
    simpl in H; try done.
  rewrite bind_eq. unfold read.
  destruct size as [|k]; [done|]. by destruct (rx m1).
Qed.

(** ** One pass of the loop *)

Lemma serve_poll_unsupported (t : locals) (m : machine) :
  id t ≠ EAM_SENSOR_ID → id t ≠ GPS_SENSOR_ID →
  serve_poll t m = Returns t m.
Proof.
  intros H1 H2. unfold serve_poll. by rewrite !bool_decide_false.
Qed.

Lemma build_send_inv (f : topics → list Z → nat → list Z * nat)
    (t t' : locals) (m m' : machine) :
  ('(buf, sz) ← build f (buffer t) (size t);
   '(_, buf) ← send_data buf sz;
   mret (Locals buf sz (id t) (connected t))) m = Returns t' m' →
  connected t' = connected t ∧ id t' = id t ∧ console m' = console m.
Proof.
  rewrite bind_eq. unfold build.
  destruct (f (sensors m) (buffer t) (size t)) as [buf sz].
  rewrite bind_eq. pose proof (send_data_console buf sz m) as Hc.
  destruct (send_data buf sz m) as [[r buf'] m2| | |]; try done.
  intros [= <- <-]. by simpl in Hc.
Qed.

Lemma serve_poll_inv (t t' : locals) (m m' : machine) :
  serve_poll t m = Returns t' m' →
  connected t' = connected t ∧ id t' = id t ∧ console m' = console m.
Proof.
  unfold serve_poll. repeat case_bool_decide.
  - apply build_send_inv.
  - apply build_send_inv.
  - by intros [= <- <-].
Qed.

Lemma loop_body_error (t : locals) (m m1 : machine) (id' : Z) :
  recv_req_id (id t) m = Returns (ERROR, id') m1 →
  loop_body t m =
  Returns (Locals (buffer t) (size t) id' false)
          (with_console (console m1 ++ ["syncing"]) m1).
Proof. intros E. unfold loop_body. by rewrite bind_eq, E. Qed.

Lemma loop_body_ok (t : locals) (m m1 : machine) (id' : Z) :
  recv_req_id (id t) m = Returns (OK, id') m1 →
  loop_body t m =
  serve_poll (Locals (buffer t) (size t) id' true)
    (with_console (console m1 ++ notice (connected t) OK) m1).
Proof.
  intros E. unfold loop_body. rewrite bind_eq, E.
  rewrite bool_decide_true by done. rewrite bind_eq. destruct (connected t); cbn.
  - rewrite app_nil_r. by destruct m1.
  - done.
Qed.

Lemma loop_body_connected (t t' : locals) (m m1 m' : machine) (r : status)
    (id' : Z) :
  recv_req_id (id t) m = Returns (r, id') m1 →
  loop_body t m = Returns t' m' →
  connected t' = bool_decide (r = OK) ∧
  console m' = console m1 ++ notice (connected t) r.
Proof.
  intros E. destruct r.
  - rewrite (loop_body_ok t m m1 id' E). intros H.
    by apply serve_poll_inv in H as (-> & _ & ->).
  - rewrite (loop_body_error t m m1 id' E). by intros [= <- <-].
Qed.

(** ** The request listener *)

(** C5.  When the byte at the head of the receive queue is the binary-mode
    marker (so [poll] reports the line readable within its 1000 ms) and a
    second byte follows, [recv_req_id] returns [OK], hands that second byte
    to the caller as the sensor id, and takes exactly those two bytes off
    the line: nothing else of the machine changes. *)
Theorem recv_req_id_valid_poll (id0 sensor : Z) (q : list Z) (m : machine) :
  rx m = BINARY_MODE_REQUEST_ID :: sensor :: q →
  recv_req_id id0 m = Returns (OK, sensor) (with_rx q m).
Proof. apply recv_req_id_request. Qed.

(** C3, as the code has it.  On a mode byte other than the marker
    [recv_req_id] returns [ERROR] and leaves the caller's id alone, which is
    also what it returns after a timeout: the result value does not tell the
    two apart.  The timeout alone prints a warning. *)
Theorem recv_req_id_mismatch_is_error (id0 mode : Z) (q : list Z)
    (m quiet : machine) :
  rx m = mode :: q → mode ≠ BINARY_MODE_REQUEST_ID → rx quiet = [] →
  ∃ m' quiet' : machine,
    recv_req_id id0 m = Returns (ERROR, id0) m' ∧
    recv_req_id id0 quiet = Returns (ERROR, id0) quiet' ∧
    console m' = console m ∧
    console quiet' = console quiet ++ ["UART timeout on TX/RX port"].
Proof.
  intros E Hne Eq. eexists _, _.
  split; [by apply (recv_req_id_mismatch id0 m mode q)|].
  split; [by apply recv_req_id_timeout|]. done.
Qed.

(** C6.  When the byte at the head of the receive queue is not the marker,
    [recv_req_id] returns [ERROR] having taken that one byte off the line and
    no other, and the pass of the loop it belongs to ends there: the thread
    is marked disconnected and prints "syncing", while buffer, size and id
    are as before, nothing was written, no pause was taken and the sensor
    topics were not consulted. *)
Theorem mismatch_ends_the_pass (t : locals) (mode : Z) (q : list Z)
    (m : machine) :
  rx m = mode :: q → mode ≠ BINARY_MODE_REQUEST_ID →
  recv_req_id (id t) m = Returns (ERROR, id t) (with_rx q m) ∧
  loop_body t m =
  Returns (Locals (buffer t) (size t) (id t) false)
          (with_console (console m ++ ["syncing"]) (with_rx q m)).
Proof.
  intros E Hne.
  pose proof (recv_req_id_mismatch (id t) m mode q E Hne) as H.
  split; [done|]. by rewrite (loop_body_error t m _ _ H).
Qed.

(** ** The session *)

(** C2.  At the head of the loop the [connected] flag tells how the latest
    [recv_req_id] call ended ([true] before the first call).  In a pass, the
    flag becomes [true] exactly when the call returned [OK], the thread
    prints "OK" if it was disconnected before, and "syncing" when the call
    returned [ERROR]; this holds for every sensor id, every builder output
    and every behaviour of the writes, so neither the dispatch nor the
    transmission has a say. *)
Theorem connected_follows_listener :
  (∀ (last : option status) (t : locals) (m : machine),
     session last t m →
     connected t = match last with
                   | None => true
                   | Some r => bool_decide (r = OK)
                   end) ∧
  (∀ (t t' : locals) (m m1 m' : machine) (r : status) (id' : Z),
     recv_req_id (id t) m = Returns (r, id') m1 →
     loop_body t m = Returns t' m' →
     connected t' = bool_decide (r = OK) ∧
     console m' = console m1 ++ notice (connected t) r).
Proof.
  split.
  - intros last t m H.
    induction H as [buf m Hlen| | | |last t m r id' m1 t' m' _ _ _ E Hpass];
      try done.
    by destruct (loop_body_connected t t' m m1 m' r id' E Hpass).
  - apply loop_body_connected.
Qed.

(** C8, as the code has it.  When [recv_req_id] has returned [OK] with an id
    that is neither [EAM_SENSOR_ID] nor [GPS_SENSOR_ID], the switch leaves
    the pass at once: the pass returns to the head of the loop with buffer
    and size untouched, nothing written to the line, no pause taken and no
    "syncing" printed.  The thread is connected afterwards, because the
    successful poll has made it so before the switch is reached: a thread
    that was connected stays as it was and prints nothing, a thread that
    was out of sync becomes connected and prints "OK".  The switch itself
    changes neither the thread nor the machine. *)
Theorem unsupported_sensor_is_skipped (t : locals) (m m1 : machine) (id' : Z) :
  recv_req_id (id t) m = Returns (OK, id') m1 →
  id' ≠ EAM_SENSOR_ID → id' ≠ GPS_SENSOR_ID →
  let t1 := Locals (buffer t) (size t) id' true in
  let m1' := with_console (console m1 ++ notice (connected t) OK) m1 in
  serve_poll t1 m1' = Returns t1 m1' ∧
  loop_body t m = Returns t1 m1' ∧
  tx m1' = tx m ∧ wr_faults m1' = wr_faults m ∧ clock m1' = clock m ∧
  (connected t = true → console m1' = console m) ∧
  connected t1 = true ∧
  console m1' = console m ++ (if connected t then [] else ["OK"]) ∧
  (connected t = true → connected t1 = connected t) ∧
  (connected t = false →
   connected t1 ≠ connected t ∧ console m1' = console m ++ ["OK"]).
Proof.
  intros E H1 H2 t1 m1'.
  assert (Hs : serve_poll t1 m1' = Returns t1 m1')
    by (by apply serve_poll_unsupported).
  split; [done|]. split; [by rewrite (loop_body_ok t m m1 id' E)|].
  apply recv_req_id_ok_inv in E as (q & _ & ->).
  unfold m1'. destruct (connected t); simpl; rewrite ?app_nil_r;
    repeat split; done.
Qed.

(** ** The stop-byte reader *)

Lemma with_rx_same (m : machine) (q : list Z) : rx m = q → with_rx q m = m.
Proof. intros <-. by destruct m. Qed.

Lemma recv_data_loop_pass (fuel : nat) (buf : list Z) (size : nat) (id0 : Z)
    (i : nat) (b : Z) (q : list Z) (m : machine) :
  rx m = b :: q → (i < length buf)%nat → b ≠ STOP_BYTE →
  recv_data_loop (S fuel) buf size id0 i false m =
  recv_data_loop fuel (<[i:=b]> buf) size id0 (S i) false (with_rx q m).
Proof.
  intros E Hi Hb. cbn [recv_data_loop].
  rewrite bind_eq, (read_byte_cons m b q E).
  rewrite bind_eq. unfold store. rewrite decide_True by done.
  rewrite bind_eq. unfold load. rewrite list_lookup_insert_eq by done.
  by rewrite bool_decide_false.
Qed.

Lemma recv_data_loop_overrun (fuel : nat) (buf : list Z) (size : nat)
    (id0 : Z) (i : nat) (b : Z) (q : list Z) (m : machine) (stop : bool) :
  rx m = b :: q → (length buf ≤ i)%nat →
  recv_data_loop (S fuel) buf size id0 i stop m = Overruns i (with_rx q m).
Proof.
  intros E Hi. cbn [recv_data_loop].
  rewrite bind_eq, (read_byte_cons m b q E).
  rewrite bind_eq. unfold store. by rewrite decide_False by lia.
Qed.

Lemma recv_data_loop_starved (fuel : nat) (buf : list Z) (size : nat)
    (id0 : Z) (i : nat) (m : machine) (stop : bool) :
  rx m = [] →
  recv_data_loop (S fuel) buf size id0 i stop m = Blocks m.
Proof.
  intros E. cbn [recv_data_loop]. by rewrite bind_eq, (read_byte_nil m E).
Qed.

Lemma recv_data_loop_never_returns (fuel : nat) (buf : list Z) (size : nat)
    (id0 : Z) (i : nat) (m : machine) :
  STOP_BYTE ∉ rx m →
  ¬ returns (recv_data_loop fuel buf size id0 i false m).
Proof.
  revert buf i m. induction fuel as [|fuel IH]; intros buf i m Hstop;
    [by intros []|].
  destruct (rx m) as [|b q] eqn:E.
  - rewrite recv_data_loop_starved by done. by intros [].
  - apply not_elem_of_cons in Hstop as [Hb Hq].
    destruct (decide (i < length buf)%nat) as [Hi|Hi].
    + rewrite (recv_data_loop_pass fuel buf size id0 i b q m) by done.
      by apply IH.
    + rewrite (recv_data_loop_overrun fuel buf size id0 i b q m)
        by (done || lia).
      by intros [].
Qed.

Lemma recv_data_loop_stop_free (fuel : nat) (buf : list Z) (size : nat)
    (id0 : Z) (i : nat) (m : machine) :
  STOP_BYTE ∉ rx m → (i ≤ length buf)%nat → (length (rx m) < fuel)%nat →
  recv_data_loop fuel buf size id0 i false m =
  if decide (i + length (rx m) ≤ length buf)%nat
  then Blocks (with_rx [] m)
  else Overruns (length buf)
         (with_rx (drop (S (length buf - i)) (rx m)) m).
Proof.
  revert buf i m. induction fuel as [|fuel IH]; intros buf i m Hstop Hi Hfuel;
    [lia|].
  destruct (rx m) as [|b q] eqn:E.
  - rewrite recv_data_loop_starved by done. simpl.
    rewrite decide_True by lia. by rewrite with_rx_same.
  - apply not_elem_of_cons in Hstop as [Hb Hq]. simpl in Hfuel.
    destruct (decide (i < length buf)%nat) as [Hlt|Hge].
    + rewrite (recv_data_loop_pass fuel buf size id0 i b q m) by done.
      rewrite IH; cbn [rx with_rx]; rewrite ?length_insert; [|done|lia|lia].
      simpl length. repeat case_decide; try lia; [done|].
      replace (length buf - i)%nat with (S (length buf - S i)) by lia.
      done.
    + rewrite (recv_data_loop_overrun fuel buf size id0 i b q m)
        by (done || lia).
      simpl length. rewrite decide_False by lia.
      replace (length buf - i)%nat with 0%nat by lia.
      replace i with (length buf) by lia. reflexivity.
Qed.

(** C9, as the code has it.  On a line that carries no stop byte [recv_data]
    returns only through the timeout: with nothing pending it returns
    [ERROR] and leaves buffer, size and id alone.  Once a byte is pending it
    never returns, however many passes are followed: the loop stores each
    byte received at the next index without looking at the capacity, so a
    stream longer than the buffer makes it write at the index one past the
    end, and a shorter one leaves the thread blocked in [read] with the
    stream used up. *)
Theorem recv_data_without_stop_byte (fuel : nat) (buf : list Z) (size : nat)
    (id0 : Z) (m : machine) :
  STOP_BYTE ∉ rx m →
  (rx m = [] →
   ∃ m' : machine,
     recv_data fuel buf size id0 m = Returns (ERROR, buf, size, id0) m') ∧
  (rx m ≠ [] → ¬ returns (recv_data fuel buf size id0 m)) ∧
  ((length (rx m) < fuel)%nat → (length buf < length (rx m))%nat →
   ∃ m' : machine,
     recv_data fuel buf size id0 m = Overruns (length buf) m') ∧
  ((length (rx m) < fuel)%nat → (0 < length (rx m) ≤ length buf)%nat →
   ∃ m' : machine,
     recv_data fuel buf size id0 m = Blocks m' ∧ rx m' = []).
Proof.
  intros Hstop.
  set (m0 := with_clock (clock m + 5000) m).
  assert (Hrun : rx m ≠ [] →
            recv_data fuel buf size id0 m =
            recv_data_loop fuel buf size id0 0 false m0).
  { intros Hne. unfold recv_data. rewrite bind_eq. unfold usleep.
    rewrite bind_eq. unfold poll. fold m0.
    change (rx m0) with (rx m). by destruct (rx m). }
  split; [|split; [|split]].
  - intros E. unfold recv_data. rewrite bind_eq. unfold usleep.
    rewrite bind_eq. unfold poll. fold m0. change (rx m0) with (rx m).
    rewrite E. by eexists.
  - intros Hne. rewrite (Hrun Hne). by apply recv_data_loop_never_returns.
  - intros Hfuel Hlong.
    rewrite Hrun by (intros E; rewrite E in Hlong; simpl in Hlong; lia).
    rewrite recv_data_loop_stop_free by (done || simpl; lia).
    change (rx m0) with (rx m). rewrite decide_False by lia. by eexists.
  - intros Hfuel [Hpos Hfit].
    rewrite Hrun by (intros E; rewrite E in Hpos; simpl in Hpos; lia).
    rewrite recv_data_loop_stop_free by (done || simpl; lia).
    change (rx m0) with (rx m). rewrite decide_True by lia. by eexists.
Qed.

(** * Further properties of the code *)

(** ** The request listener, whatever is on the line *)

(** X1.  What [recv_req_id] does is decided by the first two bytes pending:
    it returns [OK] exactly when the marker and one more byte are there, it
    never returns exactly when the marker is there alone (the read of the
    id blocks), and in every other case -- nothing pending, or a first byte
    other than the marker -- it returns [ERROR]. *)
Theorem recv_req_id_by_line (id0 : Z) (m : machine) :
  ((∃ (id' : Z) (m1 : machine), recv_req_id id0 m = Returns (OK, id') m1) ↔
   ∃ (sensor : Z) (q : list Z), rx m = BINARY_MODE_REQUEST_ID :: sensor :: q) ∧
  (¬ returns (recv_req_id id0 m) ↔ rx m = [BINARY_MODE_REQUEST_ID]) ∧
  ((∃ (id' : Z) (m1 : machine), recv_req_id id0 m = Returns (ERROR, id') m1) ↔
   rx m = [] ∨ ∃ (mode : Z) (q : list Z),
                 rx m = mode :: q ∧ mode ≠ BINARY_MODE_REQUEST_ID).
Proof.
  destruct (rx m) as [|mode q] eqn:E.
  { rewrite (recv_req_id_timeout id0 m E). split; [|split].
    - split; [by intros (? & ? & [=])|by intros (? & ? & [=])].
    - split; [intros H; by destruct H|done].
    - split; [by left|by eexists _, _]. }
  destruct (decide (mode = BINARY_MODE_REQUEST_ID)) as [->|Hne].
  - destruct q as [|sensor q].
    + rewrite (recv_req_id_half_request id0 m E). split; [|split].
      * split; [by intros (? & ? & [=])|by intros (? & ? & [=])].
      * split; [done|by intros _ []].
      * split; [by intros (? & ? & [=])|].
        intros [[=]|(? & ? & [= <- <-] & ?)]. done.
    + rewrite (recv_req_id_request id0 m sensor q E). split; [|split].
      * split; [by eexists _, _|by eexists _, _].
      * split; [intros H; by destruct H|done].
      * split; [by intros (? & ? & [=])|].
        intros [[=]|(? & ? & [= <- <-] & ?)]. done.
  - rewrite (recv_req_id_mismatch id0 m mode q E Hne). split; [|split].
    + split; [by intros (? & ? & [=])|].
      intros (? & ? & [= -> ->]). done.
    + split; [intros H; by destruct H|]. intros [= -> ->]. done.
    + split; [right; by eexists _, _|by eexists _, _].
Qed.

(** X2.  However it ends, [recv_req_id] has written nothing to the line, has
    taken at most two bytes off the front of the receive queue, and has
    left the fault schedule, the wiring and the exit flag alone; when it
    returns [ERROR] the caller's id is what it was. *)
Theorem recv_req_id_footprint (id0 : Z) (m : machine) :
  let m' := final (recv_req_id id0 m) in
  tx m' = tx m ∧ wr_faults m' = wr_faults m ∧ echo m' = echo m ∧
  thread_should_exit m' = thread_should_exit m ∧
  (∃ k : nat, (k ≤ 2)%nat ∧ rx m' = drop k (rx m)) ∧
  (∀ (id' : Z) (m1 : machine),
     recv_req_id id0 m = Returns (ERROR, id') m1 → id' = id0).
Proof.
  destruct (rx m) as [|mode q] eqn:E.
  { rewrite (recv_req_id_timeout id0 m E). simpl. rewrite E.
    repeat split; [|by intros ? ? [= <- _]].
    exists 0%nat. split; [lia|done]. }
  destruct (decide (mode = BINARY_MODE_REQUEST_ID)) as [->|Hne].
  - destruct q as [|sensor q].
    + rewrite (recv_req_id_half_request id0 m E). simpl.
      repeat split; [|done]. exists 1%nat. split; [lia|done].
    + rewrite (recv_req_id_request id0 m sensor q E). simpl.
      repeat split; [|done]. exists 2%nat. split; [lia|done].
  - rewrite (recv_req_id_mismatch id0 m mode q E Hne). simpl.
    repeat split; [|by intros ? ? [= <- _]].
    exists 1%nat. split; [lia|done].
Qed.

(** ** The transmitter at its edges *)

Lemma send_loop_overrun (size todo i : nat) (c : Z) (buf : list Z)
    (m : machine) :
  (i + todo = size)%nat → (length buf < size)%nat → (i ≤ length buf)%nat →
  send_loop todo i size c buf m =
  Overruns (length buf) (transmit (drop i buf) m).
Proof.
  revert i c m. induction todo as [|todo IH]; intros i c m Hi Hsz Hle; [lia|].
  cbn [send_loop]. rewrite bind_eq.
  destruct (decide (i = length buf)) as [->|Hlt].
  - rewrite drop_all. case_bool_decide.
    + rewrite bind_eq. unfold store. by rewrite decide_False by lia.
    + rewrite bind_eq. unfold load. by rewrite lookup_ge_None_2 by lia.
  - destruct (lookup_lt_is_Some_2 buf i ltac:(lia)) as [b Hb].
    rewrite bool_decide_false by lia.
    rewrite bind_eq. unfold load at 1. rewrite Hb. cbn -[send_loop].
    rewrite bind_eq. unfold load at 1. rewrite Hb.
    rewrite write_then_pause, IH by lia.
    by rewrite (drop_S buf b i Hb).
Qed.

(** X3.  [send_data] trusts its [size]: given one beyond the end of the
    buffer it sends the whole buffer as it is -- no position inside the
    buffer is the last one, so none of its bytes is replaced by a checksum
    -- and then reaches for the element one past the end (to store the
    checksum there when [size] is the length plus one, to read it
    otherwise). *)
Theorem send_data_oversized (buf : list Z) (size : nat) (m : machine) :
  (length buf < size)%nat →
  ∃ m' : machine,
    send_data buf size m = Overruns (length buf) m' ∧
    tx m' = tx m ++ delivered (wr_faults m) buf.
Proof.
  intros Hsz. eexists. split.
  - unfold send_data. rewrite bind_eq. unfold usleep. rewrite bind_eq.
    rewrite (send_loop_overrun size) by lia. by rewrite drop_0.
  - by rewrite tx_transmit.
Qed.

(** X4.  What [send_data] leaves on the receive side, and when it hangs.
    With [q] the receive queue as it stands once the frame is written --
    what was pending, then the echo of the bytes whose write went through
    -- the call returns exactly when the frame is empty or [q] is not, and
    however it ends the queue is [q] less its first [size] bytes (all of
    [q] when it is shorter). *)
Theorem send_data_receive_queue (buf : list Z) (size : nat) (m : machine) :
  (size ≤ length buf)%nat →
  let q := rx m ++ (if echo m
                    then delivered (wr_faults m) (frame buf size) else []) in
  (returns (send_data buf size m) ↔ size = 0%nat ∨ q ≠ []) ∧
  rx (final (send_data buf size m)) = drop size q.
Proof.
  intros Hsz q.
  pose proof (send_data_cases buf size m Hsz) as H. cbn zeta in H.
  set (m2 := transmit _ _) in H.
  assert (Hq : rx m2 = q) by (unfold m2; by rewrite rx_transmit).
  destruct size as [|k].
  - rewrite H. simpl. split; [by split; auto|]. by rewrite <- Hq.
  - rewrite Hq in H. destruct q as [|b q'] eqn:Eq; rewrite H; simpl.
    + split; [|by rewrite Hq].
      split; [done|]. by intros [|].
    + split; [|done]. split; [by right|done].
Qed.

Lemma send_data_buffer (buf buf' : list Z) (size : nat) (m m' : machine)
    (r : status) :
  (size ≤ length buf)%nat →
  send_data buf size m = Returns (r, buf') m' → buf' = framed buf size.
Proof.
  intros Hsz E.
  pose proof (send_data_cases buf size m Hsz) as H. cbn zeta in H.
  destruct size as [|k]; [rewrite H in E; by injection E as _ <- _|].
  destruct (rx (transmit _ _)); rewrite H in E; [done|].
  by injection E as _ <- _.
Qed.

Lemma frame_framed (buf : list Z) (size : nat) :
  frame (framed buf size) size = frame buf size.
Proof.
  destruct size as [|k]; [done|]. unfold frame, framed.
  by rewrite take_insert_ge by lia.
Qed.

Lemma framed_framed (buf : list Z) (size : nat) :
  framed (framed buf size) size = framed buf size.
Proof.
  destruct size as [|k]; [done|]. unfold framed.
  by rewrite take_insert_ge, list_insert_insert_eq by lia.
Qed.

(** X6.  Sending again the buffer a [send_data] call has returned puts the
    same frame on the line and changes the buffer no more: the checksum
    does not cover the position it is stored at. *)
Theorem send_data_again (buf buf' : list Z) (size : nat) (m m' m2 : machine)
    (r : status) :
  (size ≤ length buf)%nat →
  send_data buf size m = Returns (r, buf') m' →
  tx (final (send_data buf' size m2)) =
    tx m2 ++ delivered (wr_faults m2) (frame buf size) ∧
  ∀ (r2 : status) (buf'' : list Z) (m2' : machine),
    send_data buf' size m2 = Returns (r2, buf'') m2' → buf'' = buf'.
Proof.
  intros Hsz E. apply send_data_buffer in E as ->; [|done].
  assert (Hlen : (size ≤ length (framed buf size))%nat).
  { destruct size as [|k]; [simpl; lia|]. unfold framed.
    by rewrite length_insert. }
  split.
  - by rewrite send_data_tx, frame_framed.
  - intros r2 buf'' m2' E2. apply send_data_buffer in E2 as ->; [|done].
    apply framed_framed.
Qed.

Lemma Forall_delivered (P : Z → Prop) (faults : list bool) (l : list Z) :
  Forall P l → Forall P (delivered faults l).
Proof.
  intros H. revert faults. induction H as [|b l Hb _ IH]; intros faults;
    [constructor|].
  simpl. destruct faults as [|[] fs]; auto.
Qed.

(** X7.  Bytes stay bytes.  When the buffer and the wire hold values of
    [uint8_t] only, so they do after [send_data]: the checksum it stores and
    sends is reduced to a byte whatever the payload adds up to. *)
Theorem send_data_keeps_bytes (buf : list Z) (size : nat) (m : machine) :
  (size ≤ length buf)%nat →
  Forall is_byte buf → Forall is_byte (tx m) →
  Forall is_byte (tx (final (send_data buf size m))) ∧
  ∀ (r : status) (buf' : list Z) (m' : machine),
    send_data buf size m = Returns (r, buf') m' → Forall is_byte buf'.
Proof.
  intros Hsz Hbuf Htx. split.
  - rewrite send_data_tx by done. apply Forall_app. split; [done|].
    apply Forall_delivered. destruct size as [|k]; [constructor|].
    unfold frame. apply Forall_app. split; [by apply Forall_take|].
    constructor; [apply checksum_of_range|constructor].
  - intros r buf' m' E. apply send_data_buffer in E as ->; [|done].
    destruct size as [|k]; [done|]. unfold framed.
    apply Forall_insert; [done|apply checksum_of_range].
Qed.

(** ** The stop-byte reader on a frame *)

Lemma place_cons (i : nat) (b : Z) (l buf : list Z) :
  (i < length buf)%nat →
  place (S i) l (<[i:=b]> buf) = place i (b :: l) buf.
Proof.
  intros Hi. unfold place.
  rewrite (take_S_r _ i b) by (by apply list_lookup_insert_eq).
  rewrite take_insert_ge by lia. rewrite drop_insert_lt by lia.
  rewrite <- app_assoc. simpl.
  by replace (i + S (length l))%nat with (S (i + length l)) by lia.
Qed.

Lemma place_one (i : nat) (b : Z) (buf : list Z) :
  (i < length buf)%nat → place i [b] buf = <[i:=b]> buf.
Proof.
  intros Hi. unfold place. rewrite insert_take_drop by done. simpl.
  by replace (i + 1)%nat with (S i) by lia.
Qed.

Lemma recv_data_loop_frame (fuel : nat) (buf : list Z) (size : nat)
    (id0 : Z) (i : nat) (pre : list Z) (c : Z) (rest : list Z)
    (m : machine) :
  rx m = pre ++ STOP_BYTE :: c :: rest → STOP_BYTE ∉ pre →
  (i + length pre + 2 ≤ length buf)%nat → (length pre + 2 ≤ fuel)%nat →
  ∃ idv : Z,
    place i (pre ++ [STOP_BYTE]) buf !! 1%nat = Some idv ∧
    recv_data_loop fuel buf size id0 i false m =
    Returns (OK, place i (pre ++ [STOP_BYTE; c]) buf,
             (i + length pre + 2)%nat, idv)
            (with_rx rest m).
Proof.
  revert fuel buf i m.
  induction pre as [|b pre IH]; intros fuel buf i m E Hstop Hfit Hfuel;
    simpl in *.
  - destruct fuel as [|[|fuel]]; [lia..|].
    destruct (lookup_lt_is_Some_2 (<[i:=STOP_BYTE]> buf) 1) as [idv Hid];
      [rewrite length_insert; lia|].
    exists idv. rewrite place_one by lia. split; [done|].
    cbn [recv_data_loop].
    rewrite bind_eq, (read_byte_cons m _ _ E).
    rewrite bind_eq. unfold store at 1. rewrite decide_True by lia.
    rewrite bind_eq. unfold load at 1.
    rewrite list_lookup_insert_eq by lia.
    rewrite bool_decide_true by done.
    rewrite bind_eq. unfold load at 1. rewrite Hid.
    rewrite bind_eq, (read_byte_cons (with_rx (c :: rest) m) c rest eq_refl).
    rewrite bind_eq. unfold store.
    rewrite decide_True by (rewrite length_insert; lia).
    change [STOP_BYTE; c] with (STOP_BYTE :: [c]).
    rewrite <- place_cons by lia.
    rewrite place_one by (rewrite length_insert; lia).
    by replace (i + 0 + 2)%nat with (S (S i)) by lia.
  - apply not_elem_of_cons in Hstop as [Hb Hpre].
    destruct fuel as [|fuel]; [lia|].
    rewrite (recv_data_loop_pass fuel buf size id0 i b _ m E) by (lia || done).
    destruct (IH fuel (<[i:=b]> buf) (S i)
                (with_rx (pre ++ STOP_BYTE :: c :: rest) m))
      as (idv & Hid & Hrun);
      [done|done|rewrite length_insert; lia|lia|].
    exists idv. rewrite <- !place_cons by lia. split; [done|].
    rewrite Hrun.
    by replace (S i + length pre + 2)%nat
      with (i + S (length pre) + 2)%nat by lia.
Qed.

(** X8.  A frame is taken in as far as the byte after its first stop byte:
    with the stop byte and one more byte pending, and room for them in the
    buffer, [recv_data] returns [OK], having stored exactly those bytes at
    the front of the buffer and reported their number as the size; what
    follows stays on the line, and the byte after the stop byte is stored
    unexamined.  The id it reports is what index 1 of the buffer holds when
    the stop byte has just been stored: the second byte received -- or,
    when the stop byte is the first byte of all, whatever the caller's
    buffer held there before. *)
Theorem recv_data_frame (fuel : nat) (buf : list Z) (size : nat) (id0 : Z)
    (pre : list Z) (c : Z) (rest : list Z) (m : machine) :
  rx m = pre ++ STOP_BYTE :: c :: rest → STOP_BYTE ∉ pre →
  (length pre + 2 ≤ length buf)%nat → (length pre + 2 ≤ fuel)%nat →
  ∃ idv : Z,
    (pre ++ STOP_BYTE :: drop (S (length pre)) buf) !! 1%nat = Some idv ∧
    recv_data fuel buf size id0 m =
    Returns (OK, pre ++ STOP_BYTE :: c :: drop (length pre + 2) buf,
             (length pre + 2)%nat, idv)
            (with_rx rest (with_clock (clock m + 5000) m)).
Proof.
  intros E Hstop Hfit Hfuel.
  set (m0 := with_clock (clock m + 5000) m).
  destruct (recv_data_loop_frame fuel buf size id0 0 pre c rest m0)
    as (idv & Hid & Hrun); [done|done|lia|lia|].
  exists idv. unfold place in Hid, Hrun. simpl in Hid, Hrun.
  rewrite length_app in Hid, Hrun. simpl in Hid, Hrun.
  rewrite <- !app_assoc in Hid, Hrun. simpl in Hid, Hrun.
  replace (length pre + 1)%nat with (S (length pre)) in Hid by lia.
  split; [done|].
  unfold recv_data. rewrite bind_eq. unfold usleep.
  rewrite bind_eq. unfold poll. fold m0. change (rx m0) with (rx m).
  rewrite E. destruct pre; exact Hrun.
Qed.

Lemma recv_data_loop_overflow (fuel : nat) (buf : list Z) (size : nat)
    (id0 : Z) (i : nat) (m : machine) :
  (i ≤ length buf)%nat →
  STOP_BYTE ∉ take (length buf - 1 - i) (rx m) →
  (length buf - i + 1 ≤ length (rx m))%nat →
  (length buf - i + 1 ≤ fuel)%nat →
  ∃ m' : machine,
    recv_data_loop fuel buf size id0 i false m = Overruns (length buf) m'.
Proof.
  revert buf i m.
  induction fuel as [|fuel IH]; intros buf i m Hi Hstop Hlen Hfuel; [lia|].
  destruct (rx m) as [|b q] eqn:E; [simpl in Hlen; lia|]. simpl in Hlen.
  destruct (decide (i = length buf)) as [->|Hne].
  { eexists. by apply (recv_data_loop_overrun fuel buf size id0 _ b q m). }
  destruct (decide (b = STOP_BYTE)) as [->|Hb].
  - assert (i = (length buf - 1)%nat) as Hlast.
    { destruct (length buf - 1 - i)%nat eqn:En; [lia|].
      simpl in Hstop. exfalso. apply Hstop. by left. }
    destruct q as [|b2 q]; [simpl in Hlen; lia|].
    destruct fuel as [|fuel]; [lia|].
    cbn [recv_data_loop].
    rewrite bind_eq, (read_byte_cons m _ _ E).
    rewrite bind_eq. unfold store at 1. rewrite decide_True by lia.
    rewrite bind_eq. unfold load at 1.
    rewrite list_lookup_insert_eq by lia.
    rewrite bool_decide_true by done.
    rewrite bind_eq. unfold load at 1.
    destruct (<[i:=STOP_BYTE]> buf !! 1%nat) as [idv|] eqn:Hid.
    + rewrite bind_eq,
        (read_byte_cons (with_rx (b2 :: q) m) b2 q eq_refl).
      rewrite bind_eq. unfold store.
      rewrite decide_False by (rewrite length_insert; lia).
      replace (S i) with (length buf) by lia. by eexists.
    + apply lookup_ge_None_1 in Hid. rewrite length_insert in Hid.
      replace 1%nat with (length buf) by lia. by eexists.
  - rewrite (recv_data_loop_pass fuel buf size id0 i b q m E) by (lia || done).
    destruct (IH (<[i:=b]> buf) (S i) (with_rx q m)) as [m' Hm'];
      rewrite ?length_insert; cbn [rx with_rx]; try lia.
    + destruct (length buf - 1 - i)%nat eqn:En.
      * replace (length buf - 1 - S i)%nat with 0%nat by lia.
        apply not_elem_of_nil.
      * simpl in Hstop. apply not_elem_of_cons in Hstop as [_ Hstop].
        by replace (length buf - 1 - S i)%nat with n by lia.
    + rewrite length_insert in Hm'. by exists m'.
Qed.

(** X9.  The loop of [recv_data] never looks at the capacity: when no stop
    byte comes among the first [capacity - 1] bytes and one byte more than
    the buffer holds is pending, the call stores past the end of the
    caller's buffer -- also on a frame that does end in a stop byte. *)
Theorem recv_data_overflows (fuel : nat) (buf : list Z) (size : nat)
    (id0 : Z) (m : machine) :
  STOP_BYTE ∉ take (length buf - 1) (rx m) →
  (length buf + 1 ≤ length (rx m))%nat →
  (length buf + 1 ≤ fuel)%nat →
  ∃ m' : machine,
    recv_data fuel buf size id0 m = Overruns (length buf) m'.
Proof.
  intros Hstop Hlen Hfuel.
  set (m0 := with_clock (clock m + 5000) m).
  destruct (recv_data_loop_overflow fuel buf size id0 0 m0) as [m' Hm'];
    change (rx m0) with (rx m); rewrite ?Nat.sub_0_r; try (done || lia).
  exists m'. unfold recv_data. rewrite bind_eq. unfold usleep.
  rewrite bind_eq. unfold poll. fold m0. change (rx m0) with (rx m).
  destruct (rx m); [simpl in Hlen; lia|exact Hm'].
Qed.

(** ** What no call ever does *)

Lemma extends_refl (m : machine) : extends m m.
Proof. by repeat split. Qed.

Lemma extends_trans (m1 m2 m3 : machine) :
  extends m1 m2 → extends m2 m3 → extends m1 m3.
Proof.
  intros (E1 & F1 & S1 & T1 & C1) (E2 & F2 & S2 & T2 & C2).
  repeat split; try congruence; by etrans.
Qed.

Lemma bind_extends {A B : Type} (c : M A) (k : A → M B) (m : machine) :
  extends m (final (c m)) →
  (∀ (a : A) (m1 : machine), extends m1 (final (k a m1))) →
  extends m (final ((c ≫= k) m)).
Proof.
  intros Hc Hk. rewrite bind_eq. destruct (c m) as [a m1|m1|i m1|m1]; try done.
  simpl in Hc. by eapply extends_trans.
Qed.

Lemma ret_extends {A : Type} (a : A) (m : machine) :
  extends m (final ((mret a : M A) m)).
Proof. apply extends_refl. Qed.

Lemma poll_extends (t : Z) (m : machine) : extends m (final (poll t m)).
Proof. unfold poll. destruct (rx m); by repeat split. Qed.

Lemma read_extends (n : nat) (m : machine) : extends m (final (read n m)).
Proof. unfold read. destruct n, (rx m); by repeat split. Qed.

Lemma read_byte_extends (m : machine) : extends m (final (read_byte m)).
Proof. unfold read_byte, read. destruct (rx m); by repeat split. Qed.

Lemma write_extends (b : Z) (m : machine) : extends m (final (write b m)).
Proof.
  unfold write. destruct (wr_faults m) as [|[] fs]; repeat split;
    simpl; try done; by apply prefix_app_r.
Qed.

Lemma usleep_extends (us : Z) (m : machine) : extends m (final (usleep us m)).
Proof. by repeat split. Qed.

Lemma warnx_extends (msg : string) (m : machine) :
  extends m (final (warnx msg m)).
Proof. repeat split; simpl; try done. by apply prefix_app_r. Qed.

Lemma load_extends (buf : list Z) (i : nat) (m : machine) :
  extends m (final (load buf i m)).
Proof. unfold load. destruct (buf !! i); apply extends_refl. Qed.

Lemma store_extends (buf : list Z) (i : nat) (v : Z) (m : machine) :
  extends m (final (store buf i v m)).
Proof. unfold store. case_decide; apply extends_refl. Qed.

Lemma recv_req_id_extends (id0 : Z) (m : machine) :
  extends m (final (recv_req_id id0 m)).
Proof.
  unfold recv_req_id. apply bind_extends; [apply poll_extends|].
  intros ready m1. case_bool_decide.
  - apply bind_extends; [apply read_byte_extends|]. intros mode m2.
    case_bool_decide; [apply ret_extends|].
    apply bind_extends; [apply read_byte_extends|]. intros. apply ret_extends.
  - apply bind_extends; [apply warnx_extends|]. intros. apply ret_extends.
Qed.

Lemma send_loop_extends (todo i size : nat) (c : Z) (buf : list Z)
    (m : machine) :
  extends m (final (send_loop todo i size c buf m)).
Proof.
  revert i c buf m. induction todo as [|todo IH]; intros i c buf m;
    [apply extends_refl|].
  cbn [send_loop]. apply bind_extends.
  - case_bool_decide.
    + apply bind_extends; [apply store_extends|]. intros. apply ret_extends.
    + apply bind_extends; [apply load_extends|]. intros. apply ret_extends.
  - intros [c' buf'] m1.
    apply bind_extends; [apply load_extends|]. intros b m2.
    apply bind_extends; [apply write_extends|]. intros _ m3.
    apply bind_extends; [apply usleep_extends|]. intros _ m4. apply IH.
Qed.

Lemma send_data_extends (buf : list Z) (size : nat) (m : machine) :
  extends m (final (send_data buf size m)).
Proof.
  unfold send_data. apply bind_extends; [apply usleep_extends|]. intros _ m1.
  apply bind_extends; [apply send_loop_extends|]. intros buf' m2.
  apply bind_extends; [apply read_extends|]. intros. apply ret_extends.
Qed.

Lemma serve_poll_extends (t : locals) (m : machine) :
  extends m (final (serve_poll t m)).
Proof.
  unfold serve_poll. repeat case_bool_decide; [| |apply ret_extends].
  - apply bind_extends; [apply extends_refl|]. intros [buf sz] m1.
    apply bind_extends; [apply send_data_extends|]. intros [r buf'] m2.
    apply ret_extends.
  - apply bind_extends; [apply extends_refl|]. intros [buf sz] m1.
    apply bind_extends; [apply send_data_extends|]. intros [r buf'] m2.
    apply ret_extends.
Qed.

Lemma recv_data_loop_extends (fuel : nat) (buf : list Z) (size : nat)
    (id0 : Z) (i : nat) (stop : bool) (m : machine) :
  extends m (final (recv_data_loop fuel buf size id0 i stop m)).
Proof.
  revert buf id0 i stop m.
  induction fuel as [|fuel IH]; intros buf id0 i stop m;
    [apply extends_refl|].
  cbn [recv_data_loop].
  apply bind_extends; [apply read_byte_extends|]. intros b m1.
  apply bind_extends; [apply store_extends|]. intros buf' m2.
  destruct stop; [apply ret_extends|].
  apply bind_extends; [apply load_extends|]. intros bi m3.
  case_bool_decide; [|apply IH].
  apply bind_extends; [apply load_extends|]. intros b1 m4. apply IH.
Qed.

Lemma loop_body_extends (t : locals) (m : machine) :
  extends m (final (loop_body t m)).
Proof.
  unfold loop_body. apply bind_extends; [apply recv_req_id_extends|].
  intros [r id'] m1. case_bool_decide.
  - apply bind_extends; [|intros; apply serve_poll_extends].
    destruct (connected t); [apply ret_extends|apply warnx_extends].
  - apply bind_extends; [apply warnx_extends|]. intros. apply ret_extends.
Qed.

(** X10.  However a pass of the loop ends, and however a [recv_data] call
    ends, what was on the wire and on the console before is still there,
    possibly with more after it; the wiring, the sensor topics and the exit
    flag are untouched.  The loop never lowers or raises its own exit flag:
    only the [stop] command ends it. *)
Theorem pass_extends (t : locals) (m : machine) :
  extends m (final (loop_body t m)) ∧
  ∀ (fuel : nat) (buf : list Z) (size : nat) (id0 : Z),
    extends m (final (recv_data fuel buf size id0 m)) ∧
    tx (final (recv_data fuel buf size id0 m)) = tx m.
Proof.
  split; [apply loop_body_extends|].
  intros fuel buf size id0.
  {
    assert (Hloop : ∀ fuel buf id0 i stop m,
              tx (final (recv_data_loop fuel buf size id0 i stop m)) = tx m).
    { clear. intros fuel. induction fuel as [|fuel IH];
        intros buf id0 i stop m; [done|].
      cbn [recv_data_loop]. rewrite bind_eq. unfold read_byte, read.
      destruct (rx m) as [|b q]; [done|]. simpl.
      rewrite bind_eq. unfold store. case_decide; [|done].
      destruct stop; [done|].
      rewrite bind_eq. unfold load at 1.
      destruct (_ !! i); [|done]. case_bool_decide; [|by rewrite IH].
      rewrite bind_eq. unfold load. destruct (_ !! 1%nat); [|done].
      by rewrite IH. }
    split.
    + unfold recv_data. apply bind_extends; [apply usleep_extends|].
      intros _ m1. apply bind_extends; [apply poll_extends|].
      intros ready m2. case_bool_decide; [|apply ret_extends].
      apply recv_data_loop_extends.
    + unfold recv_data. rewrite bind_eq. unfold usleep. rewrite bind_eq.
      unfold poll. simpl. destruct (rx m); [done|]. simpl.
      by rewrite Hloop. }
Qed.

Lemma loop_body_blocked (t : locals) (m m1 : machine) :
  recv_req_id (id t) m = Blocks m1 → loop_body t m = Blocks m1.
Proof. intros E. unfold loop_body. by rewrite bind_eq, E. Qed.

(** X11.  The daemon never speaks first: a pass puts bytes on the wire only
    when the marker and the id of one of the two sensors it serves were
    pending at its start.  On a silent line, a garbled request, half a
    request or a poll for another sensor the wire is as it was, however
    the pass ends. *)
Theorem pass_writes_only_when_polled (t : locals) (m : machine) :
  tx (final (loop_body t m)) ≠ tx m →
  ∃ (sensor : Z) (q : list Z),
    rx m = BINARY_MODE_REQUEST_ID :: sensor :: q ∧
    (sensor = EAM_SENSOR_ID ∨ sensor = GPS_SENSOR_ID).
Proof.
  intros Htx. destruct (rx m) as [|mode q] eqn:E.
  { exfalso. apply Htx.
    by rewrite (loop_body_error t m _ _ (recv_req_id_timeout (id t) m E)). }
  destruct (decide (mode = BINARY_MODE_REQUEST_ID)) as [->|Hne].
  - destruct q as [|sensor q].
    + exfalso. apply Htx.
      by rewrite (loop_body_blocked t m _
                    (recv_req_id_half_request (id t) m E)).
    + exists sensor, q. split; [done|].
      destruct (decide (sensor = EAM_SENSOR_ID)) as [|H1]; [by left|].
      destruct (decide (sensor = GPS_SENSOR_ID)) as [|H2]; [by right|].
      exfalso. apply Htx.
      rewrite (loop_body_ok t m _ _ (recv_req_id_request (id t) m sensor q E)).
      by rewrite serve_poll_unsupported.
  - exfalso. apply Htx.
    by rewrite (loop_body_error t m _ _
                  (recv_req_id_mismatch (id t) m mode q E Hne)).
Qed.

(** ** A poll and its answer *)

Lemma send_data_clean (buf : list Z) (size : nat) (m : machine) :
  (size ≤ length buf)%nat → fault_free size m → echo m = true →
  ∃ m' : machine,
    send_data buf size m = Returns (OK, framed buf size) m' ∧
    tx m' = tx m ++ frame buf size ∧
    rx m' = drop size (rx m ++ frame buf size) ∧
    console m' = console m.
Proof.
  intros Hsz Hff Hecho.
  pose proof (send_data_cases buf size m Hsz) as H. cbn zeta in H.
  pose proof (send_data_console buf size m) as Hc.
  pose proof (frame_length buf size Hsz) as Hlen.
  assert (Hdel : delivered (wr_faults m) (frame buf size) = frame buf size).
  { apply delivered_fault_free. by rewrite Hlen. }
  set (m2 := transmit _ _) in H.
  assert (Hrx : rx m2 = rx m ++ frame buf size).
  { unfold m2. rewrite rx_transmit. simpl. by rewrite Hecho, Hdel. }
  assert (Htx : tx m2 = tx m ++ frame buf size).
  { unfold m2. rewrite tx_transmit. simpl. by rewrite Hdel. }
  destruct size as [|k].
  - rewrite H in Hc. exists m2. by rewrite Hrx.
  - destruct (rx m2) as [|b q] eqn:Erx.
    + exfalso. apply (f_equal length) in Hrx.
      rewrite length_app, Hlen in Hrx. simpl in Hrx. lia.
    + rewrite H in Hc. eexists. split; [exact H|].
      split; [done|]. split; [|done]. cbn [rx with_rx]. by rewrite <- Hrx.
Qed.

(** X12.  A poll and its answer, end to end.  With the marker and the id of
    a served sensor pending on a half-duplex line whose writes go through,
    the pass calls the builder of that sensor ([EAM_SENSOR_ID] is looked
    for first) on the thread's buffer with the topics as they stand, sends
    the frame it reports, and returns connected with the framed buffer and
    the reported size kept; the line has lost the request and the first
    [size] bytes of what was pending behind it and the echo, and the only
    thing printed is "OK" after a time out of sync. *)
Theorem poll_is_answered (t : locals) (m : machine) (sensor : Z)
    (q buf' : list Z) (sz : nat) :
  rx m = BINARY_MODE_REQUEST_ID :: sensor :: q →
  sensor = EAM_SENSOR_ID ∨ sensor = GPS_SENSOR_ID →
  (if decide (sensor = EAM_SENSOR_ID)
   then build_eam_response else build_gps_response)
    (sensors m) (buffer t) (size t) = (buf', sz) →
  (sz ≤ length buf')%nat → echo m = true → fault_free sz m →
  ∃ m' : machine,
    loop_body t m = Returns (Locals (framed buf' sz) sz sensor true) m' ∧
    tx m' = tx m ++ frame buf' sz ∧
    rx m' = drop sz (q ++ frame buf' sz) ∧
    console m' = console m ++ notice (connected t) OK.
Proof.
  intros E Hid Hbuild Hsz Hecho Hff.
  rewrite (loop_body_ok t m _ _ (recv_req_id_request (id t) m sensor q E)).
  set (m1 := with_console _ _).
  destruct (send_data_clean buf' sz m1 Hsz Hff Hecho)
    as (m' & Hsend & Htx & Hrx & Hc).
  exists m'. split; [|by rewrite Htx, Hrx, Hc].
  unfold serve_poll. cbn [id buffer size connected].
  destruct (decide (sensor = EAM_SENSOR_ID)) as [He|He].
  - rewrite bool_decide_true by done.
    rewrite bind_eq. unfold build. change (sensors m1) with (sensors m).
    rewrite Hbuild. cbn. by rewrite bind_eq, Hsend.
  - destruct Hid as [?|Hg]; [done|].
    rewrite bool_decide_false, bool_decide_true by done.
    rewrite bind_eq. unfold build. change (sensors m1) with (sensors m).
    rewrite Hbuild. cbn. by rewrite bind_eq, Hsend.
Qed.

(** ** The device argument of the thread *)

Lemma scan_args_plain (args : list string) (device : string) :
  Forall (λ a, is_device_flag a = false) args →
  scan_args args device = Some device.
Proof.
  intros H. induction H as [|a args Ha _ IH]; [done|].
  simpl. by rewrite Ha.
Qed.

(** X13.  The thread gives up over its arguments exactly when the last of
    them is [-d] or [--device]: a flag anywhere else finds an argument
    behind it, whatever that argument is. *)
Theorem scan_args_missing_parameter (args : list string) (device : string) :
  scan_args args device = None ↔
  ∃ (pre : list string) (a : string),
    args = pre ++ [a] ∧ is_device_flag a = true.
Proof.
  revert device. induction args as [|a rest IH]; intros device.
  - split; [done|]. intros (pre & a & E & _). by destruct pre.
  - simpl. destruct (is_device_flag a) eqn:Ha.
    + destruct rest as [|next rest'].
      * split; [|done]. intros _. by exists [], a.
      * rewrite IH. split.
        -- intros (pre & a' & -> & Ha'). by exists (a :: pre), a'.
        -- intros (pre & a' & E & Ha'). destruct pre as [|x pre]; [done|].
           injection E as -> E. by exists pre, a'.
    + rewrite IH. split.
      * intros (pre & a' & -> & Ha'). by exists (a :: pre), a'.
      * intros (pre & a' & E & Ha'). destruct pre as [|x pre].
        -- injection E as -> ->. congruence.
        -- injection E as -> E. by exists pre, a'.
Qed.

Lemma scan_args_flag (a next : string) (rest : list string)
    (device : string) :
  is_device_flag a = true →
  scan_args (a :: next :: rest) device = scan_args (next :: rest) next.
Proof. intros H. simpl. by rewrite H. Qed.

Lemma scan_args_other (a : string) (rest : list string) (device : string) :
  is_device_flag a = false →
  scan_args (a :: rest) device = scan_args rest device.
Proof. intros H. simpl. by rewrite H. Qed.

(** X14.  The device the thread opens is the argument behind the last [-d]
    or [--device]; without any it is [/dev/ttyS1].  Arguments before that
    flag, earlier flags and their devices among them, do not matter. *)
Theorem scan_args_last_flag_wins :
  (∀ args : list string,
     Forall (λ a, is_device_flag a = false) args →
     scan_args args "/dev/ttyS1" = Some "/dev/ttyS1") ∧
  (∀ (pre post : list string) (a d device : string),
     is_device_flag a = true →
     Forall (λ a, is_device_flag a = false) (d :: post) →
     scan_args (pre ++ a :: d :: post) device = Some d).
Proof.
  split; [intros args; apply scan_args_plain|].
  intros pre post a d device Ha Hpost. revert device.
  induction pre as [|x pre IH]; intros device.
  - rewrite app_nil_l, scan_args_flag by done. by apply scan_args_plain.
  - destruct (is_device_flag x) eqn:Hx.
    + destruct pre as [|y pre]; cbn [app] in *;
        rewrite scan_args_flag by done; apply IH.
    + cbn [app]. rewrite scan_args_other by done. apply IH.
Qed.

(** ** A start that fails, and what the commands make of it *)

(** X15.  The two ways the thread can fail to start leave different traces.
    Over a missing parameter it clears [thread_running] before it exits.
    Over a device that cannot be opened it exits with [thread_running]
    still set -- the assignment that would clear it stands behind [errx] --
    and from then on [start] is refused: it reports the daemon as already
    running, spawns nothing and exits 0. *)
Theorem failed_open_blocks_restart (argv : list string) (d : daemon) :
  (scan_args argv "/dev/ttyS1" = None →
   snd (thread_start argv d) = inr (Exit 1) ∧
   thread_running (fst (thread_start argv d)) = false) ∧
  (∀ device : string,
     scan_args argv "/dev/ttyS1" = Some device → open_uart device < 0 →
     let d' := fst (thread_start argv d) in
     snd (thread_start argv d) = inr (Exit 1) ∧
     thread_running d' = true ∧
     ∀ (prog : string) (args : list string),
       hott_telemetry_main (prog :: "start" :: args) d' =
       (say "deamon already running" d', Exit 0)).
Proof.
  split.
  - intros E. unfold thread_start. by rewrite E.
  - intros device E Hopen d'. unfold d', thread_start. rewrite E.
    rewrite bool_decide_true by done. simpl. split; [done|]. split; [done|].
    intros prog args. reflexivity.
Qed.

(** X16.  [start] undoes a [stop] only once the thread is gone.  While
    [thread_running] is set, a [start] behind a [stop] is refused and the
    exit flag stays up: the thread will leave its loop and the daemon ends
    up stopped.  With [thread_running] clear, the same [start] lowers the
    flag again and spawns the thread with the arguments behind the
    command. *)
Theorem start_after_stop (d : daemon) (prog1 prog2 : string)
    (args1 args2 : list string) :
  let d1 := fst (hott_telemetry_main (prog1 :: "stop" :: args1) d) in
  let d2 := fst (hott_telemetry_main (prog2 :: "start" :: args2) d1) in
  (thread_running d = true →
   thread_should_exit (mach d2) = true ∧ spawned d2 = spawned d ∧
   thread_running d2 = true) ∧
  (thread_running d = false →
   thread_should_exit (mach d2) = false ∧
   spawned d2 = spawned d ++ [args2] ∧ thread_running d2 = false).
Proof.
  intros d1 d2. unfold d2, d1, hott_telemetry_main. simpl.
  split; intros H; rewrite H; simpl; by rewrite ?drop_0.
Qed.

(** X17.  The guard of [hott_telemetry_main] is one short.  It turns away
    an empty argument vector with "missing command"; with the program name
    alone it passes, and the command compared by [strcmp] is [argv[1]], the
    null pointer that ends the vector.  With two arguments or more every
    call ends in an [exit]. *)
Theorem missing_command_guard (argv : list string) (d : daemon) :
  (argv = [] →
   hott_telemetry_main argv d =
   (say ("missing command" ++ newline ++ commandline_usage) d, Exit 1)) ∧
  (snd (hott_telemetry_main argv d) = Undefined ↔ length argv = 1%nat) ∧
  ((2 ≤ length argv)%nat →
   ∃ code : Z, snd (hott_telemetry_main argv d) = Exit code).
Proof.
  split; [by intros ->|]. split.
  - unfold hott_telemetry_main. destruct argv as [|prog [|command args]].
    + done.
    + done.
    + simpl. split; [|intros [=]].
      repeat case_bool_decide; try done. by destruct (thread_running d).
  - intros Hlen. destruct argv as [|prog [|command args]];
      [simpl in Hlen; lia..|].
    unfold hott_telemetry_main. simpl.
    repeat case_bool_decide; try destruct (thread_running d); by eexists.
Qed.

(** ** The loop left alone *)

(** X18.  The loop ends by the exit flag and by nothing else.  Entered with
    the flag up it returns at once, without a pass; entered with the flag
    down and nobody to raise it, it never returns, whatever arrives on the
    line and however many passes are followed: no pass touches the flag. *)
Theorem thread_loop_ends_by_flag_only (fuel : nat) (t : locals)
    (m : machine) :
  (thread_should_exit m = true → thread_loop (S fuel) t m = Returns t m) ∧
  (thread_should_exit m = false → ¬ returns (thread_loop fuel t m)).
Proof.
  split.
  - intros H. cbn [thread_loop]. by rewrite H.
  - revert t m. induction fuel as [|fuel IH]; intros t m H; [by intros []|].
    cbn [thread_loop]. rewrite H, bind_eq.
    pose proof (loop_body_extends t m) as (_ & Hflag & _).
    destruct (loop_body t m) as [t' m'| | |]; try (by intros []).
    simpl in Hflag. apply IH. congruence.
Qed.

(** X19.  On a line that stays silent every pass waits out the full second
    of the poll, prints the timeout warning and "syncing", and does nothing
    else: after [n] passes the console has those two lines [n] times over,
    the clock is [n] seconds on, and line and wire are as they were. *)
Theorem thread_loop_on_silent_line (n : nat) (t : locals) (m : machine) :
  rx m = [] → thread_should_exit m = false →
  thread_loop n t m =
  Exhausts
    (with_console
       (console m ++
        mjoin (replicate n ["UART timeout on TX/RX port"; "syncing"]))
       (with_clock (clock m + Z.of_nat n * 1000000) m)).
Proof.
  revert t m. induction n as [|n IH]; intros t m Hrx Hflag.
  - simpl. f_equal. destruct m. unfold with_console, with_clock. simpl.
    f_equal; [lia|by rewrite app_nil_r].
  - cbn [thread_loop]. rewrite Hflag, bind_eq.
    rewrite (loop_body_error t m _ _ (recv_req_id_timeout (id t) m Hrx)).
    rewrite IH by done. f_equal.
    unfold with_console, with_clock, timeout_ms. simpl.
    f_equal; [lia|by rewrite <- !app_assoc].
Qed.

(** ** The stop-byte reader at the end of the stream *)

Lemma recv_data_loop_stop_last (fuel : nat) (buf : list Z) (size : nat)
    (id0 : Z) (i : nat) (pre : list Z) (m : machine) :
  rx m = pre ++ [STOP_BYTE] → STOP_BYTE ∉ pre →
  (i + length pre + 1 ≤ length buf)%nat → (2 ≤ length buf)%nat →
  (length pre + 2 ≤ fuel)%nat →
  recv_data_loop fuel buf size id0 i false m = Blocks (with_rx [] m).
Proof.
  revert fuel buf i m.
  induction pre as [|b pre IH]; intros fuel buf i m E Hstop Hfit Hcap Hfuel;
    simpl in *.
  - destruct fuel as [|[|fuel]]; [lia..|].
    destruct (lookup_lt_is_Some_2 (<[i:=STOP_BYTE]> buf) 1) as [idv Hid];
      [rewrite length_insert; lia|].
    cbn [recv_data_loop].
    rewrite bind_eq, (read_byte_cons m _ _ E).
    rewrite bind_eq. unfold store at 1. rewrite decide_True by lia.
    rewrite bind_eq. unfold load at 1.
    rewrite list_lookup_insert_eq by lia.
    rewrite bool_decide_true by done.
    rewrite bind_eq. unfold load at 1. rewrite Hid.
    by rewrite bind_eq, (read_byte_nil (with_rx [] m) eq_refl).
  - apply not_elem_of_cons in Hstop as [Hb Hpre].
    destruct fuel as [|fuel]; [lia|].
    rewrite (recv_data_loop_pass fuel buf size id0 i b _ m E) by (lia || done).
    rewrite (IH fuel (<[i:=b]> buf) (S i) (with_rx (pre ++ [STOP_BYTE]) m));
      rewrite ?length_insert; (done || lia).
Qed.

(** X20.  [recv_data] always wants the byte after the stop byte: when the
    stop byte is the last byte to come, the call has stored the frame but
    does not return -- it hangs in the read of that one byte more. *)
Theorem recv_data_waits_after_stop (fuel : nat) (buf : list Z) (size : nat)
    (id0 : Z) (pre : list Z) (m : machine) :
  rx m = pre ++ [STOP_BYTE] → STOP_BYTE ∉ pre →
  (length pre + 1 ≤ length buf)%nat → (2 ≤ length buf)%nat →
  (length pre + 2 ≤ fuel)%nat →
  recv_data fuel buf size id0 m =
  Blocks (with_rx [] (with_clock (clock m + 5000) m)).
Proof.
  intros E Hstop Hfit Hcap Hfuel.
  set (m0 := with_clock (clock m + 5000) m).
  unfold recv_data. rewrite bind_eq. unfold usleep.
  rewrite bind_eq. unfold poll. fold m0. change (rx m0) with (rx m).
  rewrite E.
  assert (Hrun : recv_data_loop fuel buf size id0 0 false m0 =
                 Blocks (with_rx [] m0))
    by (apply (recv_data_loop_stop_last fuel buf size id0 0 pre); (done || lia)).
  by destruct pre.
Qed.

(** After a regular end of the thread the daemon can be started again.  Leaving its loop the thread prints "exiting" and clears
    [thread_running]; the next [start] then lowers the exit flag that made
    the thread leave -- so the new thread does not stop at once -- and
    spawns it with the arguments behind the command. *)
Lemma restart_after_exit (d : daemon) (prog : string) (args : list string) :
  let d1 := fst (thread_finish d) in
  let d2 := fst (hott_telemetry_main (prog :: "start" :: args) d1) in
  snd (thread_finish d) = Return 0 ∧
  thread_running d1 = false ∧
  console (mach d1) = console (mach d) ++ ["exiting"] ∧
  snd (hott_telemetry_main (prog :: "start" :: args) d1) = Exit 0 ∧
  thread_should_exit (mach d2) = false ∧
  spawned d2 = spawned d ++ [args] ∧
  console (mach d2) = console (mach d1).
Proof. intros d1 d2. by repeat split. Qed.

End Daemon.

Arguments Machine {topics} rx tx echo wr_faults clock console
  thread_should_exit sensors.
Arguments rx {topics} m.
Arguments tx {topics} m.
Arguments echo {topics} m.
Arguments wr_faults {topics} m.
Arguments clock {topics} m.
Arguments console {topics} m.
Arguments thread_should_exit {topics} m.
Arguments sensors {topics} m.
Arguments with_rx {topics} q m.
Arguments with_console {topics} l m.
Arguments with_clock {topics} c m.
Arguments fault_free {topics} n m.
Arguments extends {topics} m m'.
Arguments Daemon {topics} mach thread_running spawned.
Arguments mach {topics} d.
Arguments thread_running {topics} d.
Arguments spawned {topics} d.
Arguments say {topics} msg d.

(** * A test bench *)

(** One setting of the parameters: the constants as the HoTT protocol has
    them, a six-byte message buffer, no sensor topics, and two stand-in
    builders that put a fixed message at the front of the buffer. *)
Module Bench.

Definition BINARY_MODE_REQUEST_ID : Z := 0x80.
Definition EAM_SENSOR_ID : Z := 0x8e.
Definition GPS_SENSOR_ID : Z := 0x8a.
Definition STOP_BYTE : Z := 0x7d.
Definition POST_READ_DELAY_IN_USECS : Z := 4000.
Definition POST_WRITE_DELAY_IN_USECS : Z := 2000.
Definition MESSAGE_BUFFER_SIZE : nat := 6.

Definition fill (msg buf : list Z) : list Z * nat :=
  (msg ++ drop (length msg) buf, length msg).

Definition build_eam_response (_ : unit) (buf : list Z) (_ : nat)
    : list Z * nat :=
  fill [0x7c; 0x8e; 200; 0x7d; 0] buf.

Definition build_gps_response (_ : unit) (buf : list Z) (_ : nat)
    : list Z * nat :=
  fill [0x7c; 0x8a; 0x7d; 0] buf.

(** A half-duplex line with [q] pending and the fault schedule [faults]. *)
Definition line (q : list Z) (faults : list bool) : machine unit :=
  Machine q [] true faults 0 [] false ().

Definition recv_req_id := recv_req_id unit BINARY_MODE_REQUEST_ID.
Definition recv_data := recv_data unit STOP_BYTE.
Definition send_data :=
  send_data unit POST_READ_DELAY_IN_USECS POST_WRITE_DELAY_IN_USECS.
Definition loop_body :=
  loop_body unit BINARY_MODE_REQUEST_ID EAM_SENSOR_ID GPS_SENSOR_ID
    POST_READ_DELAY_IN_USECS POST_WRITE_DELAY_IN_USECS
    build_eam_response build_gps_response.
Definition session :=
  session unit BINARY_MODE_REQUEST_ID EAM_SENSOR_ID GPS_SENSOR_ID
    POST_READ_DELAY_IN_USECS POST_WRITE_DELAY_IN_USECS MESSAGE_BUFFER_SIZE
    build_eam_response build_gps_response.

(** The result code of a call, when it returns. *)
Definition result_code {A : Type} (o : outcome (machine unit) (status * A))
    : option status :=
  match o with
  | Returns (r, _) _ => Some r
  | _ => None
  end.

(** A system with two serial ports. *)
Definition open_uart (device : string) : Z :=
  if bool_decide (device = "/dev/ttyS1") then 3
  else if bool_decide (device = "/dev/ttyS2") then 4
  else -1.

Definition thread_start := thread_start unit open_uart.
Definition hott_telemetry_main := hott_telemetry_main unit.
Definition thread_loop :=
  thread_loop unit BINARY_MODE_REQUEST_ID EAM_SENSOR_ID GPS_SENSOR_ID
    POST_READ_DELAY_IN_USECS POST_WRITE_DELAY_IN_USECS
    build_eam_response build_gps_response.

(** The daemon before its first start, on a quiet half-duplex line. *)
Definition idle : daemon unit := Daemon (line [] []) false [].

End Bench.

(** ** Runs on the bench *)

Example bench_eam_poll :
  Bench.loop_body (startup (replicate 6 0)) (Bench.line [0x80; 0x8e] []) =
  Returns (Locals [0x7c; 0x8e; 200; 0x7d; 79; 0] 5 0x8e true)
          (Machine [] [0x7c; 0x8e; 200; 0x7d; 79] true [] 14000 [] false ()).
Proof. reflexivity. Qed.

Example bench_half_poll :
  Bench.loop_body (startup (replicate 6 0)) (Bench.line [0x80] []) =
  Blocks (Bench.line [] []).
Proof. reflexivity. Qed.

Example bench_recv_data_frame :
  Bench.recv_data 10 (replicate 6 0) 0 0
    (Bench.line [0x7c; 0x8e; 0x7d; 0x11; 0x80] []) =
  Returns (OK, [0x7c; 0x8e; 0x7d; 0x11; 0; 0], 4%nat, 0x8e)
          (Machine [0x80] [] true [] 5000 [] false ()).
Proof. reflexivity. Qed.

Example bench_dead_line :
  Bench.send_data [200; 100; 7] 3 (Bench.line [] [true; true; true]) =
  Blocks (Machine [] [] true [] 10000 [] false ()).
Proof. reflexivity. Qed.

Example bench_recv_data_short_stream :
  Bench.recv_data 10 (replicate 6 0) 0 0 (Bench.line [0x7c; 0x8e; 1] []) =
  Blocks (Machine [] [] true [] 5000 [] false ()).
Proof. reflexivity. Qed.

(** ** The claims at work *)

(** C1 on the bench: the payload 200, 100 sums to 300, so 44 goes out in the
    place of the 7 the buffer held; it is still the last byte out when the
    first write fails. *)
Lemma send_data_checksum_last_witness :
  tx (final (Bench.send_data [200; 100; 7] 3 (Bench.line [] []))) =
    [200; 100; 44] ∧
  last (tx (final (Bench.send_data [200; 100; 7] 3 (Bench.line [] [true])))) =
    Some 44.
Proof.
  split.
  - exact (proj1 (send_data_checksum_last unit _ _ [200; 100; 7] 3
                    (Bench.line [] []) ltac:(simpl; lia))).
  - refine (proj1 (proj2 (send_data_checksum_last unit _ _ [200; 100; 7] 3
                            (Bench.line [] [true]) _)) _).
    + simpl. lia.
    + discriminate.
Defined.

(** C5 on the bench: marker, EAM id and one more byte pending. *)
Lemma recv_req_id_valid_poll_witness :
  Bench.recv_req_id 0 (Bench.line [0x80; 0x8e; 0x55] []) =
  Returns (OK, 0x8e) (Bench.line [0x55] []).
Proof.
  exact (recv_req_id_valid_poll unit Bench.BINARY_MODE_REQUEST_ID 0 0x8e
           [0x55] (Bench.line [0x80; 0x8e; 0x55] []) eq_refl).
Defined.

(** C3 on the bench: a garbled mode byte and a silent line. *)
Lemma recv_req_id_mismatch_is_error_witness :
  ∃ m' quiet' : machine unit,
    Bench.recv_req_id 7 (Bench.line [0x7f; 0x8e] []) = Returns (ERROR, 7) m' ∧
    Bench.recv_req_id 7 (Bench.line [] []) = Returns (ERROR, 7) quiet' ∧
    console m' = [] ∧
    console quiet' = ["UART timeout on TX/RX port"].
Proof.
  refine (recv_req_id_mismatch_is_error unit Bench.BINARY_MODE_REQUEST_ID 7
            0x7f [0x8e] (Bench.line [0x7f; 0x8e] []) (Bench.line [] [])
            eq_refl _ eq_refl).
  discriminate.
Defined.

(** C6 on the bench: the id byte behind the garbled mode byte stays on the
    line. *)
Lemma mismatch_ends_the_pass_witness :
  Bench.recv_req_id 0 (Bench.line [0x7f; 0x8e] []) =
    Returns (ERROR, 0) (Bench.line [0x8e] []) ∧
  Bench.loop_body (startup (replicate 6 0)) (Bench.line [0x7f; 0x8e] []) =
    Returns (Locals (replicate 6 0) 0 0 false)
            (Machine [0x8e] [] true [] 0 ["syncing"] false ()).
Proof.
  refine (mismatch_ends_the_pass unit Bench.BINARY_MODE_REQUEST_ID
            Bench.EAM_SENSOR_ID Bench.GPS_SENSOR_ID
            Bench.POST_READ_DELAY_IN_USECS Bench.POST_WRITE_DELAY_IN_USECS
            Bench.build_eam_response Bench.build_gps_response
            (startup (replicate 6 0)) 0x7f [0x8e]
            (Bench.line [0x7f; 0x8e] []) eq_refl _).
  discriminate.
Defined.

(** C7 on the bench: with a stale byte pending, the three bytes drained are
    the stale byte and the first two of the echo; the echoed checksum stays
    behind. *)
Lemma send_data_drains_size_bytes_witness :
  ∃ m' : machine unit,
    Bench.send_data [200; 100; 7] 3 (Bench.line [0x99] []) =
      Returns (OK, [200; 100; 44]) m' ∧
    tx m' = [200; 100; 44] ∧
    ∃ drained : list Z,
      length drained = 3%nat ∧ [0x99; 200; 100; 44] = drained ++ rx m'.
Proof.
  refine (send_data_drains_size_bytes unit _ _ [200; 100; 7] 3
            (Bench.line [0x99] []) _ _ _).
  - simpl. lia.
  - constructor.
  - left. reflexivity.
Defined.

(** C8 on the bench: a poll for the id 0x33, reaching a connected thread and
    a thread out of sync. *)
Lemma unsupported_sensor_is_skipped_witness :
  Bench.loop_body (startup (replicate 6 0)) (Bench.line [0x80; 0x33] []) =
    Returns (Locals (replicate 6 0) 0 0x33 true) (Bench.line [] []) ∧
  Bench.loop_body (Locals (replicate 6 0) 0 0 false)
    (Machine [0x80; 0x33] [] true [] 0 ["syncing"] false ()) =
    Returns (Locals (replicate 6 0) 0 0x33 true)
            (Machine [] [] true [] 0 ["syncing"; "OK"] false ()).
Proof.
  split.
  - refine (proj1 (proj2 (unsupported_sensor_is_skipped unit
              Bench.BINARY_MODE_REQUEST_ID Bench.EAM_SENSOR_ID
              Bench.GPS_SENSOR_ID Bench.POST_READ_DELAY_IN_USECS
              Bench.POST_WRITE_DELAY_IN_USECS Bench.build_eam_response
              Bench.build_gps_response (startup (replicate 6 0))
              (Bench.line [0x80; 0x33] []) (Bench.line [] []) 0x33
              eq_refl _ _))); discriminate.
  - refine (proj1 (proj2 (unsupported_sensor_is_skipped unit
              Bench.BINARY_MODE_REQUEST_ID Bench.EAM_SENSOR_ID
              Bench.GPS_SENSOR_ID Bench.POST_READ_DELAY_IN_USECS
              Bench.POST_WRITE_DELAY_IN_USECS Bench.build_eam_response
              Bench.build_gps_response (Locals (replicate 6 0) 0 0 false)
              (Machine [0x80; 0x33] [] true [] 0 ["syncing"] false ())
              (Machine [] [] true [] 0 ["syncing"] false ()) 0x33
              eq_refl _ _))); discriminate.
Defined.

(** C10 on the bench. *)
Lemma send_data_frame_effect_witness :
  (∀ (r : status) (buf' : list Z) (m' : machine unit),
     Bench.send_data [200; 100; 7] 3 (Bench.line [] []) = Returns (r, buf') m' →
     buf' = [200; 100; 44]) ∧
  returns (Bench.send_data [200; 100; 7] 3 (Bench.line [] [])).
Proof.
  destruct (send_data_frame_effect unit Bench.POST_READ_DELAY_IN_USECS
              Bench.POST_WRITE_DELAY_IN_USECS [200; 100; 7] 3
              (Bench.line [] []) ltac:(simpl; lia)) as [H1 H2].
  split.
  - intros r buf' m' E. exact (proj1 (H1 r buf' m' E)).
  - apply H2. right. split; [reflexivity|discriminate].
Defined.

(** C4 on the bench: the second write fails while a byte is pending. *)
Lemma send_data_always_ok_witness :
  ∃ m' : machine unit,
    Bench.send_data [200; 100; 7] 3 (Bench.line [0x99] [false; true]) =
      Returns (OK, [200; 100; 44]) m' ∧
    tx m' = [200; 44].
Proof.
  refine (proj2 (send_data_always_ok unit _ _ [200; 100; 7] 3
                   (Bench.line [0x99] [false; true])) _ _).
  - simpl. lia.
  - discriminate.
Defined.

(** C2 on the bench: a garbled byte, then a poll for the EAM message.  The
    thread goes out of sync and comes back. *)
Lemma connected_follows_listener_witness :
  ∃ (t1 t2 : locals) (m1 m2 : machine unit),
    Bench.session (Some ERROR) t1 m1 ∧ connected t1 = false ∧
    console m1 = ["syncing"] ∧
    Bench.session (Some OK) t2 m2 ∧ connected t2 = true ∧
    console m2 = ["syncing"; "OK"].
Proof.
  pose (t0 := startup (replicate 6 0)).
  pose (t1 := Locals (replicate 6 0) 0 0 false).
  pose (m1 := Machine [] [] true [] 0 ["syncing"] false ()).
  pose (t2 := Locals [0x7c; 0x8e; 200; 0x7d; 79; 0] 5 0x8e true).
  pose (m2 := Machine [] [0x7c; 0x8e; 200; 0x7d; 79] true [] 14000
                      ["syncing"; "OK"] false ()).
  assert (S0 : Bench.session None t0 (Bench.line [] [])).
  { apply session_start. reflexivity. }
  assert (S1 : Bench.session (Some ERROR) t1 m1).
  { apply (session_pass unit _ _ _ _ _ _ _ _ None t0 (Bench.line [0x7f] [])
             ERROR 0 (Bench.line [] []) t1 m1).
    - exact (session_line unit _ _ _ _ _ _ _ _ None t0 (Bench.line [] [])
               [0x7f] S0).
    - reflexivity.
    - reflexivity.
    - reflexivity. }
  assert (S2 : Bench.session (Some OK) t2 m2).
  { apply (session_pass unit _ _ _ _ _ _ _ _ (Some ERROR) t1
             (Machine [0x80; 0x8e] [] true [] 0 ["syncing"] false ())
             OK 0x8e m1 t2 m2).
    - exact (session_line unit _ _ _ _ _ _ _ _ (Some ERROR) t1 m1
               [0x80; 0x8e] S1).
    - reflexivity.
    - reflexivity.
    - reflexivity. }
  exists t1, t2, m1, m2.
  pose proof (proj1 (connected_follows_listener unit
    Bench.BINARY_MODE_REQUEST_ID Bench.EAM_SENSOR_ID Bench.GPS_SENSOR_ID
    Bench.POST_READ_DELAY_IN_USECS Bench.POST_WRITE_DELAY_IN_USECS
    Bench.MESSAGE_BUFFER_SIZE Bench.build_eam_response
    Bench.build_gps_response)) as Inv.
  split; [exact S1|]. split; [exact (Inv (Some ERROR) t1 m1 S1)|].
  split; [reflexivity|]. split; [exact S2|].
  split; [exact (Inv (Some OK) t2 m2 S2)|reflexivity].
Defined.

(** C9 on the bench: eight bytes without a stop byte into the six-byte
    buffer. *)
Lemma recv_data_without_stop_byte_witness :
  ∃ m' : machine unit,
    Bench.recv_data 10 (replicate 6 0) 0 0
      (Bench.line [0x7c; 0x8e; 1; 2; 3; 4; 5; 6] []) = Overruns 6 m'.
Proof.
  refine (proj1 (proj2 (proj2 (recv_data_without_stop_byte unit
            Bench.STOP_BYTE 10 (replicate 6 0) 0 0
            (Bench.line [0x7c; 0x8e; 1; 2; 3; 4; 5; 6] []) _))) _ _).
  - simpl. intros H.
    repeat (apply elem_of_cons in H as [H|H]; [discriminate H|]).
    by apply elem_of_nil in H.
  - simpl. lia.
  - simpl. lia.
Defined.

(** ** Where the code does otherwise *)

(** C3 as stated fails: a garbled mode byte and a silent line give the
    caller the same result code. *)
Lemma mismatch_same_code_as_timeout :
  Bench.result_code (Bench.recv_req_id 0 (Bench.line [0x7f; 0x8e] [])) =
    Some ERROR ∧
  Bench.result_code (Bench.recv_req_id 0 (Bench.line [] [])) = Some ERROR ∧
  ¬ (Bench.result_code (Bench.recv_req_id 0 (Bench.line [0x7f; 0x8e] [])) ≠
     Bench.result_code (Bench.recv_req_id 0 (Bench.line [] []))).
Proof.
  split; [reflexivity|]. split; [reflexivity|].
  intros H. by apply H.
Qed.

(** C4 as stated fails: the write of the second byte of a three-byte frame
    fails, the byte is missing on the wire, and [send_data] returns [OK]. *)
Lemma write_failure_reported_ok :
  wr_faults (Bench.line [] [false; true]) !! 1%nat = Some true ∧
  tx (final (Bench.send_data [200; 100; 7] 3 (Bench.line [] [false; true]))) =
    [200; 44] ∧
  Bench.result_code
    (Bench.send_data [200; 100; 7] 3 (Bench.line [] [false; true])) = Some OK ∧
  ¬ (Bench.result_code
       (Bench.send_data [200; 100; 7] 3 (Bench.line [] [false; true])) =
     Some ERROR).
Proof.
  split; [reflexivity|]. split; [reflexivity|]. split; [reflexivity|].
  discriminate.
Qed.

(** C8 as stated fails in its middle part.  After a garbled byte the thread
    stands at the head of its loop out of sync; a poll for the id 0x33, which
    is neither sensor's, is then received with [OK], and the pass that skips
    it ends with the thread connected and "OK" printed: the connectivity
    state is not what it was. *)
Lemma unsupported_poll_reconnects :
  let t := Locals (replicate 6 0) 0 0 false in
  let m := Machine [0x80; 0x33] [] true [] 0 ["syncing"] false () in
  let t' := Locals (replicate 6 0) 0 0x33 true in
  let m' := Machine [] [] true [] 0 ["syncing"; "OK"] false () in
  Bench.session (Some ERROR) t m ∧
  Bench.recv_req_id (id t) m =
    Returns (OK, 0x33) (Machine [] [] true [] 0 ["syncing"] false ()) ∧
  0x33 ≠ Bench.EAM_SENSOR_ID ∧ 0x33 ≠ Bench.GPS_SENSOR_ID ∧
  Bench.loop_body t m = Returns t' m' ∧
  connected t = false ∧ connected t' = true ∧
  ¬ (connected t' = connected t).
Proof.
  cbv zeta.
  assert (S0 : Bench.session None (startup (replicate 6 0))
                 (Bench.line [] [])).
  { apply session_start. reflexivity. }
  assert (S1 : Bench.session (Some ERROR) (Locals (replicate 6 0) 0 0 false)
                 (Machine [] [] true [] 0 ["syncing"] false ())).
  { apply (session_pass unit _ _ _ _ _ _ _ _ None (startup (replicate 6 0))
             (Bench.line [0x7f] []) ERROR 0 (Bench.line [] [])).
    - exact (session_line unit _ _ _ _ _ _ _ _ None (startup (replicate 6 0))
               (Bench.line [] []) [0x7f] S0).
    - reflexivity.
    - reflexivity.
    - reflexivity. }
  split.
  { exact (session_line unit _ _ _ _ _ _ _ _ (Some ERROR)
             (Locals (replicate 6 0) 0 0 false)
             (Machine [] [] true [] 0 ["syncing"] false ())
             [0x80; 0x33] S1). }
  repeat split; discriminate.
Qed.

(** C9 as stated fails: a silent line carries no stop byte, and on it
    [recv_data] returns ([ERROR], once the timeout has passed). *)
Lemma recv_data_returns_without_stop_byte :
  (Bench.STOP_BYTE ∉ rx (Bench.line [] [])) ∧
  Bench.recv_data 1 (replicate 6 0) 0 0 (Bench.line [] []) =
    Returns (ERROR, replicate 6 0, 0%nat, 0)
            (Machine [] [] true [] 1005000 [] false ()) ∧
  ¬ (returns (Bench.recv_data 1 (replicate 6 0) 0 0 (Bench.line [] [])) →
     Bench.STOP_BYTE ∈ rx (Bench.line [] [])).
Proof.
  split; [apply not_elem_of_nil|]. split; [reflexivity|].
  intros H. apply (not_elem_of_nil Bench.STOP_BYTE). by apply H.
Qed.

(** ** The further properties at work *)

(** X3 on the bench: a two-byte buffer sent as three bytes. *)
Lemma send_data_oversized_witness :
  ∃ m' : machine unit,
    Bench.send_data [200; 100] 3 (Bench.line [] []) = Overruns 2 m' ∧
    tx m' = [200; 100].
Proof.
  refine (send_data_oversized unit _ _ [200; 100] 3 (Bench.line [] []) _).
  simpl. lia.
Defined.

(** X4 on the bench: a line on which every write fails gives nothing to
    drain; two stale bytes ahead of an echo that lacks its second byte
    leave the echoed checksum behind. *)
Lemma send_data_receive_queue_witness :
  ¬ returns (Bench.send_data [200; 100; 7] 3
               (Bench.line [] [true; true; true])) ∧
  rx (final (Bench.send_data [200; 100; 7] 3
               (Bench.line [0x99; 0x98] [false; true]))) = [44].
Proof.
  split.
  - intros H.
    apply (proj1 (proj1 (send_data_receive_queue unit _ _ [200; 100; 7] 3
             (Bench.line [] [true; true; true]) ltac:(simpl; lia)))) in H.
    destruct H as [H|H]; [discriminate H|by apply H].
  - exact (proj2 (send_data_receive_queue unit _ _ [200; 100; 7] 3
             (Bench.line [0x99; 0x98] [false; true]) ltac:(simpl; lia))).
Defined.

(** X5 on the bench: 4000 us to settle and three pauses of 2000 us, with
    the first write failing. *)
Lemma send_data_pacing_witness :
  clock (final (Bench.send_data [200; 100; 7] 3 (Bench.line [] [true]))) =
  10000.
Proof.
  exact (send_data_pacing unit Bench.POST_READ_DELAY_IN_USECS
           Bench.POST_WRITE_DELAY_IN_USECS [200; 100; 7] 3
           (Bench.line [] [true]) ltac:(simpl; lia)).
Defined.

(** X6 on the bench. *)
Lemma send_data_again_witness :
  tx (final (Bench.send_data [200; 100; 44] 3 (Bench.line [] []))) =
    [200; 100; 44] ∧
  ∀ (r2 : status) (buf'' : list Z) (m2' : machine unit),
    Bench.send_data [200; 100; 44] 3 (Bench.line [] []) =
      Returns (r2, buf'') m2' →
    buf'' = [200; 100; 44].
Proof.
  refine (send_data_again unit Bench.POST_READ_DELAY_IN_USECS
            Bench.POST_WRITE_DELAY_IN_USECS [200; 100; 7] [200; 100; 44] 3
            (Bench.line [] [])
            (Machine [] [200; 100; 44] true [] 10000 [] false ())
            (Bench.line [] []) OK _ eq_refl).
  simpl. lia.
Defined.

(** X7 on the bench. *)
Lemma send_data_keeps_bytes_witness :
  Forall is_byte (tx (final (Bench.send_data [200; 100; 7] 3
                               (Bench.line [] [])))).
Proof.
  refine (proj1 (send_data_keeps_bytes unit _ _ [200; 100; 7] 3
                   (Bench.line [] []) _ _ _)).
  - simpl. lia.
  - repeat (constructor; [unfold is_byte; lia|]). constructor.
  - constructor.
Defined.

(** X8 on the bench: a four-byte frame with the next request behind it. *)
Lemma recv_data_frame_witness :
  ∃ idv : Z,
    ([0x7c; 0x8e] ++ 0x7d :: drop 3 (replicate 6 0)) !! 1%nat = Some idv ∧
    Bench.recv_data 10 (replicate 6 0) 0 0
      (Bench.line [0x7c; 0x8e; 0x7d; 0x11; 0x80] []) =
    Returns (OK, [0x7c; 0x8e] ++ 0x7d :: 0x11 :: drop 4 (replicate 6 0),
             4%nat, idv)
            (Machine [0x80] [] true [] 5000 [] false ()).
Proof.
  refine (recv_data_frame unit Bench.STOP_BYTE 10 (replicate 6 0) 0 0
            [0x7c; 0x8e] 0x11 [0x80]
            (Bench.line [0x7c; 0x8e; 0x7d; 0x11; 0x80] []) eq_refl _ _ _).
  - intros H.
    repeat (apply elem_of_cons in H as [H|H]; [discriminate H|]).
    by apply elem_of_nil in H.
  - simpl. lia.
  - simpl. lia.
Defined.

(** X9 on the bench: a frame whose stop byte lands in the last place of the
    six-byte buffer. *)
Lemma recv_data_overflows_witness :
  ∃ m' : machine unit,
    Bench.recv_data 10 (replicate 6 0) 0 0
      (Bench.line [1; 2; 3; 4; 5; 0x7d; 9] []) = Overruns 6 m'.
Proof.
  refine (recv_data_overflows unit Bench.STOP_BYTE 10 (replicate 6 0) 0 0
            (Bench.line [1; 2; 3; 4; 5; 0x7d; 9] []) _ _ _).
  - simpl. intros H.
    repeat (apply elem_of_cons in H as [H|H]; [discriminate H|]).
    by apply elem_of_nil in H.
  - simpl. lia.
  - simpl. lia.
Defined.

(** X11 on the bench: the pass that answers an EAM poll. *)
Lemma pass_writes_only_when_polled_witness :
  ∃ (sensor : Z) (q : list Z),
    rx (Bench.line [0x80; 0x8e] []) =
      Bench.BINARY_MODE_REQUEST_ID :: sensor :: q ∧
    (sensor = Bench.EAM_SENSOR_ID ∨ sensor = Bench.GPS_SENSOR_ID).
Proof.
  refine (pass_writes_only_when_polled unit Bench.BINARY_MODE_REQUEST_ID
            Bench.EAM_SENSOR_ID Bench.GPS_SENSOR_ID
            Bench.POST_READ_DELAY_IN_USECS Bench.POST_WRITE_DELAY_IN_USECS
            Bench.build_eam_response Bench.build_gps_response
            (startup (replicate 6 0)) (Bench.line [0x80; 0x8e] []) _).
  intros H. vm_compute in H. discriminate H.
Defined.

(** X12 on the bench: a GPS poll reaching a thread that was out of sync. *)
Lemma poll_is_answered_witness :
  ∃ m' : machine unit,
    Bench.loop_body (Locals (replicate 6 0) 0 0 false)
      (Bench.line [0x80; 0x8a] []) =
    Returns (Locals [0x7c; 0x8a; 0x7d; 131; 0; 0] 4 0x8a true) m' ∧
    tx m' = [0x7c; 0x8a; 0x7d; 131] ∧ rx m' = [] ∧ console m' = ["OK"].
Proof.
  refine (poll_is_answered unit Bench.BINARY_MODE_REQUEST_ID
            Bench.EAM_SENSOR_ID Bench.GPS_SENSOR_ID
            Bench.POST_READ_DELAY_IN_USECS Bench.POST_WRITE_DELAY_IN_USECS
            Bench.build_eam_response Bench.build_gps_response
            (Locals (replicate 6 0) 0 0 false) (Bench.line [0x80; 0x8a] [])
            0x8a [] [0x7c; 0x8a; 0x7d; 0; 0; 0] 4 eq_refl _ eq_refl _
            eq_refl _).
  - right. reflexivity.
  - simpl. lia.
  - constructor.
Defined.

(** X14 on the bench: two device flags. *)
Lemma scan_args_last_flag_wins_witness :
  scan_args ["hott_telemetry"; "-d"; "/dev/ttyS0"; "--device"; "/dev/ttyS2"]
    "/dev/ttyS1" = Some "/dev/ttyS2".
Proof.
  refine (proj2 scan_args_last_flag_wins ["hott_telemetry"; "-d"; "/dev/ttyS0"]
            [] "--device" "/dev/ttyS2" "/dev/ttyS1" eq_refl _).
  repeat constructor.
Defined.

(** X15 on the bench: a device the system does not have. *)
Lemma failed_open_blocks_restart_witness :
  snd (Bench.thread_start ["hott_telemetry"; "-d"; "/dev/ttyS9"] Bench.idle) =
    inr (Exit 1) ∧
  thread_running
    (fst (Bench.thread_start ["hott_telemetry"; "-d"; "/dev/ttyS9"]
            Bench.idle)) = true ∧
  ∀ (prog : string) (args : list string),
    Bench.hott_telemetry_main (prog :: "start" :: args)
      (fst (Bench.thread_start ["hott_telemetry"; "-d"; "/dev/ttyS9"]
              Bench.idle)) =
    (say "deamon already running"
       (fst (Bench.thread_start ["hott_telemetry"; "-d"; "/dev/ttyS9"]
               Bench.idle)), Exit 0).
Proof.
  refine (proj2 (failed_open_blocks_restart unit Bench.open_uart
            ["hott_telemetry"; "-d"; "/dev/ttyS9"] Bench.idle)
            "/dev/ttyS9" eq_refl _).
  reflexivity.
Defined.

(** X16 on the bench: [stop] and [start] in a row, with the thread still
    running. *)
Lemma start_after_stop_witness :
  thread_should_exit
    (mach (fst (Bench.hott_telemetry_main ["hott_telemetry"; "start"]
             (fst (Bench.hott_telemetry_main ["hott_telemetry"; "stop"]
                     (Daemon (Bench.line [] []) true [])))))) = true.
Proof.
  exact (proj1 (proj1 (start_after_stop unit
           (Daemon (Bench.line [] []) true [])
           "hott_telemetry" "hott_telemetry" [] []) eq_refl)).
Defined.

(** X18 on the bench: polls for a sensor the daemon does not serve keep the
    loop turning. *)
Lemma thread_loop_ends_by_flag_only_witness :
  ¬ returns (Bench.thread_loop 5 (startup (replicate 6 0))
               (Bench.line [0x80; 0x33; 0x80; 0x33] [])).
Proof.
  exact (proj2 (thread_loop_ends_by_flag_only unit
           Bench.BINARY_MODE_REQUEST_ID Bench.EAM_SENSOR_ID
           Bench.GPS_SENSOR_ID Bench.POST_READ_DELAY_IN_USECS
           Bench.POST_WRITE_DELAY_IN_USECS Bench.build_eam_response
           Bench.build_gps_response 5 (startup (replicate 6 0))
           (Bench.line [0x80; 0x33; 0x80; 0x33] [])) eq_refl).
Defined.

(** X19 on the bench: three seconds of silence. *)
Lemma thread_loop_on_silent_line_witness :
  Bench.thread_loop 3 (startup (replicate 6 0)) (Bench.line [] []) =
  Exhausts
    (Machine [] [] true [] 3000000
       ["UART timeout on TX/RX port"; "syncing";
        "UART timeout on TX/RX port"; "syncing";
        "UART timeout on TX/RX port"; "syncing"] false ()).
Proof.
  exact (thread_loop_on_silent_line unit Bench.BINARY_MODE_REQUEST_ID
           Bench.EAM_SENSOR_ID Bench.GPS_SENSOR_ID
           Bench.POST_READ_DELAY_IN_USECS Bench.POST_WRITE_DELAY_IN_USECS
           Bench.build_eam_response Bench.build_gps_response 3
           (startup (replicate 6 0)) (Bench.line [] []) eq_refl eq_refl).
Defined.

(** X20 on the bench: a frame cut off behind its stop byte. *)
Lemma recv_data_waits_after_stop_witness :
  Bench.recv_data 10 (replicate 6 0) 0 0 (Bench.line [0x7c; 0x8e; 0x7d] []) =
  Blocks (Machine [] [] true [] 5000 [] false ()).
Proof.
  refine (recv_data_waits_after_stop unit Bench.STOP_BYTE 10 (replicate 6 0)
            0 0 [0x7c; 0x8e] (Bench.line [0x7c; 0x8e; 0x7d] [])
            eq_refl _ _ _ _).
  - intros H.
    repeat (apply elem_of_cons in H as [H|H]; [discriminate H|]).
    by apply elem_of_nil in H.
  - simpl. lia.
  - simpl. lia.
  - simpl. lia.
Defined.
